(** * Settings constraints (src/Access/SettingsConstraints.cpp)

    A shallow embedding of the constraint engine of
    [DB::SettingsConstraints]: the per-setting constraint table, the
    mode-dependent range resolver [getRange], the range test
    [Range::check], the validator [checkImpl] with its two reactions, the
    batch forms [check] and [clamp], and [merge].

    Code that throws is modelled in an error monad [Result]; code that
    mutates a [SettingChange] in place returns the updated change next to
    its result. *)

From Stdlib Require Import ZArith.
From stdpp Require Import base option list strings pretty lexico gmap fin_maps.

Open Scope string_scope.

(** ** Exceptions and the error monad *)

(** [DB::Exception]: a message and an integer error code. *)
Record Exception : Type := mkException { message : string; code : Z }.

Inductive Result (A : Type) : Type :=
| Ok (a : A)
| Raise (e : Exception).
Arguments Ok {A} a.
Arguments Raise {A} e.

#[global] Instance Result_ret : MRet Result := λ A a, Ok a.

#[global] Instance Result_bind : MBind Result := λ A B k m,
  match m with
  | Ok a => k a
  | Raise e => Raise e
  end.

(** ** The collaborators

    The value type [Field], its comparison visitor, the cast into a
    setting's canonical type, the rendering helpers and the error codes are
    declared outside this translation unit (the codes as [extern const int]);
    they are taken as an interface. *)
Class Collaborators : Type := {
  Field : Type;
  Field_eq_dec :: EqDecision Field;
  (** [Field()], the default-constructed value *)
  Field_default : Field;
  isNull : Field → bool;
  isNull_default : isNull Field_default = true;
  (** [applyVisitor(FieldVisitorAccurateLess{}, left, right)]; it throws
      when the two values cannot be compared *)
  FieldVisitorAccurateLess : Field → Field → Result bool;
  (** [applyVisitor(FieldVisitorToString(), x)] *)
  FieldVisitorToString : Field → string;
  (** [Settings::castValueUtil(setting_name, x)]; it throws on a value that
      does not fit the setting's type *)
  castValueUtil : string → Field → Result Field;
  (** [e.addMessage(msg)] *)
  addMessage : Exception → string → Exception;
  (** [fmt::format("Maybe you meant {}", toString(hints))] *)
  formatHints : list string → string;
  (** [namespace ErrorCodes] *)
  READONLY : Z;
  QUERY_IS_PROHIBITED : Z;
  SETTING_CONSTRAINT_VIOLATION : Z;
  UNKNOWN_SETTING : Z
}.

Section Constraints.
Context `{C : Collaborators}.

(** ** Data *)

Inductive ReactionOnViolation : Type :=
| THROW_ON_VIOLATION
| CLAMP_ON_VIOLATION.

Record SettingChange : Type := mkSettingChange {
  name : string;
  value : Field
}.

Definition set_value (change : SettingChange) (v : Field) : SettingChange :=
  {| name := name change; value := v |}.

(** The part of [Settings] the engine reads. *)
Record Settings : Type := mkSettings {
  readonly : N;
  allow_ddl : bool;
  tryGet : string → option Field;
  getHints : string → list string
}.

(** The part of [AccessControl] the engine reads;
    [checkSettingNameIsAllowed] returns the exception it throws, if any. *)
Record AccessControl : Type := mkAccessControl {
  isSettingNameAllowed : string → bool;
  checkSettingNameIsAllowed : string → option Exception;
  doesSettingsConstraintsReplacePrevious : bool
}.

Record Range : Type := mkRange {
  is_const : bool;
  changeable_in_readonly : bool;
  min_value : Field;
  max_value : Field;
  explain : string;
  range_code : Z
}.

(** Modelled from the spec: the declaration of [Range] (its default member
    values and the factories [allowed] and [forbidden]) lives in
    SettingsConstraints.h, which is not among the sources.  A
    default-constructed range has no bounds, is not constant, is not
    changeable in readonly mode and carries no explanation. *)
Definition Range_default : Range :=
  {| is_const := false; changeable_in_readonly := false;
     min_value := Field_default; max_value := Field_default;
     explain := ""; range_code := 0 |}.

Definition Range_allowed : Range := Range_default.

Definition Range_forbidden (explain_ : string) (code_ : Z) : Range :=
  {| is_const := false; changeable_in_readonly := false;
     min_value := Field_default; max_value := Field_default;
     explain := explain_; range_code := code_ |}.

Definition with_min_value (r : Range) (v : Field) : Range :=
  {| is_const := is_const r; changeable_in_readonly := changeable_in_readonly r;
     min_value := v; max_value := max_value r;
     explain := explain r; range_code := range_code r |}.

Definition with_max_value (r : Range) (v : Field) : Range :=
  {| is_const := is_const r; changeable_in_readonly := changeable_in_readonly r;
     min_value := min_value r; max_value := v;
     explain := explain r; range_code := range_code r |}.

Definition with_is_const (r : Range) (b : bool) : Range :=
  {| is_const := b; changeable_in_readonly := changeable_in_readonly r;
     min_value := min_value r; max_value := max_value r;
     explain := explain r; range_code := range_code r |}.

Definition with_changeable_in_readonly (r : Range) (b : bool) : Range :=
  {| is_const := is_const r; changeable_in_readonly := b;
     min_value := min_value r; max_value := max_value r;
     explain := explain r; range_code := range_code r |}.


Record SettingsConstraints : Type := mkSettingsConstraints {
  access_control : AccessControl;
  constraints : gmap string Range
}.

Definition with_constraints (sc : SettingsConstraints) (m : gmap string Range)
  : SettingsConstraints :=
  {| access_control := access_control sc; constraints := m |}.

(** [constraints[setting_name]]: the entry, default-constructed when the
    key is new. *)
Definition entry (m : gmap string Range) (setting_name : string) : Range :=
  default Range_default (m !! setting_name).

(** ** Setters *)

Definition clear (sc : SettingsConstraints) : SettingsConstraints :=
  with_constraints sc ∅.

Definition setMinValue (sc : SettingsConstraints) (setting_name : string)
    (v : Field) : Result SettingsConstraints :=
  c ← castValueUtil setting_name v;
  Ok (with_constraints sc
        (<[setting_name := with_min_value (entry (constraints sc) setting_name) c]>
           (constraints sc))).

Definition setMaxValue (sc : SettingsConstraints) (setting_name : string)
    (v : Field) : Result SettingsConstraints :=
  c ← castValueUtil setting_name v;
  Ok (with_constraints sc
        (<[setting_name := with_max_value (entry (constraints sc) setting_name) c]>
           (constraints sc))).

Definition setIsConst (sc : SettingsConstraints) (setting_name : string)
    (b : bool) : SettingsConstraints :=
  with_constraints sc
    (<[setting_name := with_is_const (entry (constraints sc) setting_name) b]>
       (constraints sc)).

Definition setChangableInReadonly (sc : SettingsConstraints)
    (setting_name : string) (b : bool) : SettingsConstraints :=
  with_constraints sc
    (<[setting_name :=
         with_changeable_in_readonly (entry (constraints sc) setting_name) b]>
       (constraints sc)).

(** ** merge *)

(** One iteration of the loop of the refine branch: the fields of
    [other_constraint] written into [constraint]. *)
Definition refine (constraint other_constraint : Range) : Range :=
  let c1 :=
    if negb (isNull (min_value other_constraint))
    then with_min_value constraint (min_value other_constraint)
    else constraint in
  let c2 :=
    if negb (isNull (max_value other_constraint))
    then with_max_value c1 (max_value other_constraint)
    else c1 in
  if is_const other_constraint then with_is_const c2 true else c2.

Definition merge_replace (this other : gmap string Range) : gmap string Range :=
  map_fold (λ other_name other_constraint acc,
              <[other_name := other_constraint]> acc) this other.

Definition merge_refine (this other : gmap string Range) : gmap string Range :=
  map_fold (λ other_name other_constraint acc,
              <[other_name := refine (entry acc other_name) other_constraint]> acc)
           this other.

Definition merge (this other : SettingsConstraints) : SettingsConstraints :=
  if doesSettingsConstraintsReplacePrevious (access_control this)
  then with_constraints this (merge_replace (constraints this) (constraints other))
  else with_constraints this (merge_refine (constraints this) (constraints other)).

(** ** getRange *)

Definition getRange (sc : SettingsConstraints) (current_settings : Settings)
    (setting_name : string) : Range :=
  if negb (allow_ddl current_settings) && bool_decide (setting_name = "allow_ddl")
  then Range_forbidden
         "Cannot modify 'allow_ddl' setting when DDL queries are prohibited for the user"
         QUERY_IS_PROHIBITED
  else if (1 <? readonly current_settings)%N && bool_decide (setting_name = "readonly")
  then Range_forbidden "Cannot modify 'readonly' setting in readonly mode" READONLY
  else
    let it := constraints sc !! setting_name in
    if (readonly current_settings =? 1)%N then
      match it with
      | Some r =>
          if negb (changeable_in_readonly r)
          then Range_forbidden
                 ("Cannot modify '" +:+ setting_name +:+ "' setting in readonly mode")
                 READONLY
          else r
      | None =>
          Range_forbidden
            ("Cannot modify '" +:+ setting_name +:+ "' setting in readonly mode")
            READONLY
      end
    else
      match it with
      | Some r => r
      | None => Range_allowed
      end.


(** ** Range::check *)

(** The lambda [less_or_cannot_compare]: under [THROW_ON_VIOLATION] the
    visitor's exception escapes, otherwise it is caught and answered by
    [true]. *)
Definition less_or_cannot_compare (reaction : ReactionOnViolation)
    (left right : Field) : Result bool :=
  match reaction with
  | THROW_ON_VIOLATION => FieldVisitorAccurateLess left right
  | CLAMP_ON_VIOLATION =>
      match FieldVisitorAccurateLess left right with
      | Ok b => Ok b
      | Raise _ => Ok true
      end
  end.

Definition should_not_be_changed (setting_name : string) : Exception :=
  mkException ("Setting " +:+ setting_name +:+ " should not be changed")
              SETTING_CONSTRAINT_VIOLATION.

Definition less_than_min (setting_name : string) (min_value_ : Field) : Exception :=
  mkException ("Setting " +:+ setting_name +:+ " shouldn't be less than "
                 +:+ FieldVisitorToString min_value_)
              SETTING_CONSTRAINT_VIOLATION.

Definition greater_than_max (setting_name : string) (max_value_ : Field) : Exception :=
  mkException ("Setting " +:+ setting_name +:+ " shouldn't be greater than "
                 +:+ FieldVisitorToString max_value_)
              SETTING_CONSTRAINT_VIOLATION.

(** The statement [if (reaction == THROW_ON_VIOLATION) throw e; else return false;] *)
Definition reject (reaction : ReactionOnViolation) (e : Exception)
    (change : SettingChange) : Result (bool * SettingChange) :=
  match reaction with
  | THROW_ON_VIOLATION => Raise e
  | CLAMP_ON_VIOLATION => Ok (false, change)
  end.

(** The statement [if (reaction == THROW_ON_VIOLATION) throw e; else change.value = bound;] *)
Definition throw_or_assign (reaction : ReactionOnViolation) (e : Exception)
    (change : SettingChange) (bound : Field) : Result SettingChange :=
  match reaction with
  | THROW_ON_VIOLATION => Raise e
  | CLAMP_ON_VIOLATION => Ok (set_value change bound)
  end.

(** [bool Range::check(SettingChange & change, const Field & new_value,
    ReactionOnViolation reaction) const]: the returned flag together with
    the change as the call leaves it. *)
Definition Range_check (r : Range) (change : SettingChange) (new_value : Field)
    (reaction : ReactionOnViolation) : Result (bool * SettingChange) :=
  let setting_name := name change in
  if negb (String.eqb (explain r) "") then
    reject reaction (mkException (explain r) (range_code r)) change
  else if is_const r then
    reject reaction (should_not_be_changed setting_name) change
  else
    inconsistent ←
      (if negb (isNull (min_value r)) && negb (isNull (max_value r))
       then less_or_cannot_compare reaction (max_value r) (min_value r)
       else Ok false);
    if (inconsistent : bool) then
      reject reaction (should_not_be_changed setting_name) change
    else
      below ←
        (if negb (isNull (min_value r))
         then less_or_cannot_compare reaction new_value (min_value r)
         else Ok false);
      change1 ←
        (if (below : bool)
         then throw_or_assign reaction (less_than_min setting_name (min_value r))
                              change (min_value r)
         else Ok change);
      above ←
        (if negb (isNull (max_value r))
         then less_or_cannot_compare reaction (max_value r) new_value
         else Ok false);
      change2 ←
        (if (above : bool)
         then throw_or_assign reaction (greater_than_max setting_name (max_value r))
                              change1 (max_value r)
         else Ok change1);
      Ok (true, change2).

(** ** checkImpl *)

(** The lambda [cast_value]: the cast value and the flag [cannot_cast]. *)
Definition cast_value (reaction : ReactionOnViolation) (setting_name : string)
    (x : Field) : Result (Field * bool) :=
  match reaction with
  | THROW_ON_VIOLATION =>
      v ← castValueUtil setting_name x; Ok (v, false)
  | CLAMP_ON_VIOLATION =>
      match castValueUtil setting_name x with
      | Ok v => Ok (v, false)
      | Raise _ => Ok (Field_default, true)
      end
  end.

(** The allow-list step: [true] when the name passes. *)
Definition name_allowed (sc : SettingsConstraints) (current_settings : Settings)
    (setting_name : string) (reaction : ReactionOnViolation) : Result bool :=
  match reaction with
  | THROW_ON_VIOLATION =>
      match checkSettingNameIsAllowed (access_control sc) setting_name with
      | None => Ok true
      | Some e =>
          if bool_decide (code e = UNKNOWN_SETTING) then
            let hints := getHints current_settings setting_name in
            match hints with
            | [] => Raise e
            | _ :: _ => Raise (addMessage e (formatHints hints))
            end
          else Raise e
      end
  | CLAMP_ON_VIOLATION =>
      Ok (isSettingNameAllowed (access_control sc) setting_name)
  end.

Definition checkImpl (sc : SettingsConstraints) (current_settings : Settings)
    (change : SettingChange) (reaction : ReactionOnViolation)
  : Result (bool * SettingChange) :=
  let setting_name := name change in
  if bool_decide (setting_name = "profile") then Ok (true, change)
  else
    allowed ← name_allowed sc current_settings setting_name reaction;
    if negb allowed then Ok (false, change)
    else
      match tryGet current_settings setting_name with
      | Some current_value =>
          if bool_decide (value change = current_value) then Ok (false, change)
          else
            cast ← cast_value reaction setting_name (value change);
            let '(new_value, cannot_cast) := cast in
            if bool_decide (new_value = current_value) || cannot_cast
            then Ok (false, change)
            else Range_check (getRange sc current_settings setting_name)
                             change new_value reaction
      | None =>
          cast ← cast_value reaction setting_name (value change);
          let '(new_value, cannot_cast) := cast in
          if (cannot_cast : bool) then Ok (false, change)
          else Range_check (getRange sc current_settings setting_name)
                           change new_value reaction
      end.

(** ** The public forms *)

(** [boost::range::remove_erase_if(changes, pred)] for a predicate that may
    rewrite the element it is shown and may throw: the elements are visited
    in order, an element is erased when the predicate answers [true], and an
    exception leaves the call at once. *)
Fixpoint remove_erase_if (pred : SettingChange → Result (bool * SettingChange))
    (changes : list SettingChange) : Result (list SettingChange) :=
  match changes with
  | [] => Ok []
  | change :: rest =>
      r ← pred change;
      rest' ← remove_erase_if pred rest;
      Ok (if (r.1 : bool) then rest' else r.2 :: rest')
  end.

(** The predicate of both batch forms: [!checkImpl(current_settings, change, reaction)]. *)
Definition not_checkImpl (sc : SettingsConstraints) (current_settings : Settings)
    (reaction : ReactionOnViolation) (change : SettingChange)
  : Result (bool * SettingChange) :=
  r ← checkImpl sc current_settings change reaction;
  Ok (negb r.1, r.2).

(** [void check(const Settings &, const SettingChange &) const] *)
Definition check_one (sc : SettingsConstraints) (current_settings : Settings)
    (change : SettingChange) : Result unit :=
  _ ← checkImpl sc current_settings change THROW_ON_VIOLATION; Ok tt.

(** [void check(const Settings &, const SettingsChanges &) const] *)
Fixpoint check_const (sc : SettingsConstraints) (current_settings : Settings)
    (changes : list SettingChange) : Result unit :=
  match changes with
  | [] => Ok tt
  | change :: rest =>
      _ ← check_one sc current_settings change;
      check_const sc current_settings rest
  end.

(** [void check(const Settings &, SettingsChanges &) const] *)
Definition check (sc : SettingsConstraints) (current_settings : Settings)
    (changes : list SettingChange) : Result (list SettingChange) :=
  remove_erase_if (not_checkImpl sc current_settings THROW_ON_VIOLATION) changes.

(** [void clamp(const Settings &, SettingsChanges &) const] *)
Definition clamp (sc : SettingsConstraints) (current_settings : Settings)
    (changes : list SettingChange) : Result (list SettingChange) :=
  remove_erase_if (not_checkImpl sc current_settings CLAMP_ON_VIOLATION) changes.

(** ** Vocabulary of the statements *)

(** The tests of [Range::check], named. *)
Definition is_forbidden (r : Range) : bool := negb (String.eqb (explain r) "").
Definition has_min (r : Range) : bool := negb (isNull (min_value r)).
Definition has_max (r : Range) : bool := negb (isNull (max_value r)).

(** A comparison in which a failure counts as [true]. *)
Definition less_or_failed (left right : Field) : bool :=
  match FieldVisitorAccurateLess left right with
  | Ok b => b
  | Raise _ => true
  end.

Definition inconsistent_bounds (r : Range) : bool :=
  has_min r && has_max r && less_or_failed (max_value r) (min_value r).

Definition below_min (r : Range) (new_value : Field) : bool :=
  has_min r && less_or_failed new_value (min_value r).

Definition above_max (r : Range) (new_value : Field) : bool :=
  has_max r && less_or_failed (max_value r) new_value.

(** The three tests that reject a write whatever its value did not match:
    the range is not forbidden, not constant, and its bounds, when both are
    set, compare and are in order. *)
Definition gates_pass (r : Range) : Prop :=
  is_forbidden r = false ∧ is_const r = false
  ∧ (has_min r = true → has_max r = true →
     FieldVisitorAccurateLess (max_value r) (min_value r) = Ok false).

(** The proposed value is the setting's current value, as it stands or
    once cast. *)
Definition value_unchanged (current_settings : Settings) (change : SettingChange)
  : bool :=
  match tryGet current_settings (name change) with
  | Some current_value =>
      bool_decide (value change = current_value)
      || match castValueUtil (name change) (value change) with
         | Ok new_value => bool_decide (new_value = current_value)
         | Raise _ => false
         end
  | None => false
  end.

(** A change, other than of the profile, that proposes the current value
    as it stands. *)
Definition restates_current (current_settings : Settings) (change : SettingChange)
  : bool :=
  negb (bool_decide (name change = "profile"))
  && bool_decide (tryGet current_settings (name change) = Some (value change)).

(** What a batch form keeps of one change: the change as [checkImpl]
    leaves it when it answers [true]. *)
Definition kept_by (sc : SettingsConstraints) (current_settings : Settings)
    (reaction : ReactionOnViolation) (change : SettingChange)
  : option SettingChange :=
  match checkImpl sc current_settings change reaction with
  | Ok (true, change') => Some change'
  | _ => None
  end.

(** The bounds stored in the table are in the canonical type of their
    setting (the cast leaves them as they are, which is how the setters
    store them) and do not order below themselves. *)
Definition canonical_bound (setting_name : string) (bound : Field) : Prop :=
  castValueUtil setting_name bound = Ok bound
  ∧ FieldVisitorAccurateLess bound bound = Ok false.

Definition canonical_bounds (sc : SettingsConstraints) : Prop :=
  map_Forall (λ setting_name r,
                (has_min r = true → canonical_bound setting_name (min_value r))
                ∧ (has_max r = true → canonical_bound setting_name (max_value r)))
             (constraints sc).

(** A no-op: a change, other than of the profile, whose value is the
    current one as it stands or once cast. *)
Definition is_noop (current_settings : Settings) (change : SettingChange) : bool :=
  negb (bool_decide (name change = "profile"))
  && value_unchanged current_settings change.

(** The exception of the allow-list as [checkImpl] rethrows it. *)
Definition with_hints (current_settings : Settings) (setting_name : string)
    (e : Exception) : Exception :=
  match getHints current_settings setting_name with
  | [] => e
  | _ :: _ =>
      if bool_decide (code e = UNKNOWN_SETTING)
      then addMessage e (formatHints (getHints current_settings setting_name))
      else e
  end.

(** ** Vocabulary of the further properties *)

(** [constraints[setting_name].field = x]: what the four setters do, for a
    field update [f]. *)
Definition upsert (f : Range → Range) (sc : SettingsConstraints)
    (setting_name : string) : SettingsConstraints :=
  with_constraints sc
    (<[setting_name := f (entry (constraints sc) setting_name)]> (constraints sc)).

(** No stored entry carries an explanation: forbidden ranges are made by
    [getRange] and never stored. *)
Definition no_explanations (sc : SettingsConstraints) : Prop :=
  map_Forall (λ _ r, explain r = "") (constraints sc).

(** The two queries of the allow-list agree. *)
Definition allow_list_agrees (ac : AccessControl) : Prop :=
  ∀ setting_name,
    isSettingNameAllowed ac setting_name = true
    ↔ checkSettingNameIsAllowed ac setting_name = None.

(** The mode alone forbids a write of the setting. *)
Definition mode_forbids (sc : SettingsConstraints) (current_settings : Settings)
    (setting_name : string) : Prop :=
  (allow_ddl current_settings = false ∧ setting_name = "allow_ddl")
  ∨ ((1 < readonly current_settings)%N ∧ setting_name = "readonly")
  ∨ (readonly current_settings = 1%N
     ∧ (constraints sc !! setting_name = None
        ∨ ∃ r, constraints sc !! setting_name = Some r
               ∧ changeable_in_readonly r = false)).

(** The cast is idempotent and its results do not order below themselves. *)
Definition cast_canonical : Prop :=
  ∀ setting_name (x c : Field),
    castValueUtil setting_name x = Ok c → canonical_bound setting_name c.

End Constraints.

(** ** A small instance of the collaborators

    Unsigned integers, strings and arrays of integers; values of different
    kinds do not compare, and a cast refuses a value that is not of the
    setting's kind.  It is used to run the engine on concrete inputs. *)
Module Sample.

Inductive field : Type :=
| Null
| UInt64 (n : N)
| Str (s : string)
| Array (l : list N).

#[global] Instance field_eq_dec : EqDecision field.
Proof. solve_decision. Defined.

Definition BAD_TYPE_OF_FIELD : Z := 169.
Definition CANNOT_CONVERT_TYPE : Z := 70.

Definition kind_name (x : field) : string :=
  match x with
  | Null => "Null"
  | UInt64 _ => "UInt64"
  | Str _ => "String"
  | Array _ => "Array"
  end.

Definition cannot_compare (l r : field) : Exception :=
  mkException ("Cannot compare " +:+ kind_name l +:+ " with " +:+ kind_name r)
              BAD_TYPE_OF_FIELD.

Definition accurate_less (l r : field) : Result bool :=
  match l, r with
  | Null, _ | _, Null => Ok false
  | UInt64 a, UInt64 b => Ok (a <? b)%N
  | Str a, Str b => Ok (String.ltb a b)
  | Array a, Array b => Ok (bool_decide (lexico a b))
  | _, _ => Raise (cannot_compare l r)
  end.

Definition to_string (x : field) : string :=
  match x with
  | Null => "NULL"
  | UInt64 n => pretty n
  | Str s => "'" +:+ s +:+ "'"
  | Array l => "[" +:+ String.concat ", " (pretty <$> l) +:+ "]"
  end.

Inductive kind : Type := KUInt64 | KString.

Definition setting_kind (setting_name : string) : option kind :=
  if bool_decide (setting_name ∈ ["max_threads"; "max_memory_usage"; "readonly"; "allow_ddl"])
  then Some KUInt64
  else if bool_decide (setting_name ∈ ["profile"; "log_comment"])
  then Some KString
  else None.

Definition unknown_setting (setting_name : string) : Exception :=
  mkException ("Unknown setting " +:+ setting_name) 115.

Definition cast (setting_name : string) (x : field) : Result field :=
  match setting_kind setting_name, x with
  | None, _ => Raise (unknown_setting setting_name)
  | Some KUInt64, UInt64 _ => Ok x
  | Some KString, Str _ => Ok x
  | Some _, _ =>
      Raise (mkException ("Cannot convert " +:+ kind_name x) CANNOT_CONVERT_TYPE)
  end.

Definition add_message (e : Exception) (msg : string) : Exception :=
  mkException (if String.eqb (message e) "" then msg else message e +:+ ": " +:+ msg)
              (code e).

#[global] Instance collaborators : Collaborators := {|
  Field := field;
  Field_default := Null;
  isNull := λ x, bool_decide (x = Null);
  isNull_default := eq_refl;
  FieldVisitorAccurateLess := accurate_less;
  FieldVisitorToString := to_string;
  castValueUtil := cast;
  addMessage := add_message;
  formatHints := λ hints, "Maybe you meant [" +:+ String.concat ", " hints +:+ "]";
  READONLY := 164;
  QUERY_IS_PROHIBITED := 392;
  SETTING_CONSTRAINT_VIOLATION := 452;
  UNKNOWN_SETTING := 115
|}.

(** An access control that knows the settings of [setting_kind]. *)
Definition access (replace_previous : bool) : AccessControl :=
  {| isSettingNameAllowed := λ n, bool_decide (is_Some (setting_kind n));
     checkSettingNameIsAllowed := λ n,
       if bool_decide (is_Some (setting_kind n)) then None
       else Some (unknown_setting n);
     doesSettingsConstraintsReplacePrevious := replace_previous |}.

(** A snapshot: 5 threads, profile 'default'. *)
Definition snapshot (readonly_ : N) (allow_ddl_ : bool) : Settings :=
  {| readonly := readonly_;
     allow_ddl := allow_ddl_;
     tryGet := λ n,
       if bool_decide (n = "max_threads") then Some (UInt64 5)
       else if bool_decide (n = "profile") then Some (Str "default")
       else if bool_decide (n = "readonly") then Some (UInt64 readonly_)
       else None;
     getHints := λ n,
       if bool_decide (n = "max_thread") then ["max_threads"] else [] |}.

(** The range [5, 10]. *)
Definition five_to_ten : Range :=
  {| is_const := false; changeable_in_readonly := false;
     min_value := UInt64 5; max_value := UInt64 10;
     explain := ""; range_code := 0 |}.

Definition table (m : gmap string Range) : SettingsConstraints :=
  {| access_control := access false; constraints := m |}.

(** The constraints of the examples: [max_threads] in [5, 10],
    [max_memory_usage] and [profile] constant. *)
Definition constant : Range :=
  {| is_const := true; changeable_in_readonly := false;
     min_value := Null; max_value := Null;
     explain := ""; range_code := 0 |}.

Definition limits : SettingsConstraints :=
  table (<["max_threads" := five_to_ten]>
         (<["max_memory_usage" := constant]>
          (<["profile" := constant]> ∅))).

(** A second table, to be merged into [limits]: it lowers the minimum of
    [max_threads], sets nothing constant, and brings a new entry that is
    changeable in readonly mode. *)
Definition at_least_two : Range :=
  {| is_const := false; changeable_in_readonly := true;
     min_value := UInt64 2; max_value := Null;
     explain := ""; range_code := 0 |}.

Definition overrides : SettingsConstraints :=
  table (<["max_threads" := at_least_two]>
         (<["max_memory_usage" := at_least_two]>
          (<["log_comment" := at_least_two]> ∅))).

(** A range whose bounds are out of order. *)
Definition ten_to_five : Range :=
  {| is_const := false; changeable_in_readonly := false;
     min_value := UInt64 10; max_value := UInt64 5;
     explain := ""; range_code := 0 |}.

(** A range whose bounds do not compare. *)
Definition five_to_array : Range :=
  {| is_const := false; changeable_in_readonly := false;
     min_value := UInt64 5; max_value := Array [];
     explain := ""; range_code := 0 |}.

Definition threads (n : N) : SettingChange :=
  {| name := "max_threads"; value := UInt64 n |}.

(** A value that does not compare with the bounds of [five_to_ten]. *)
Definition threads_array : SettingChange :=
  {| name := "max_threads"; value := Array [] |}.

Definition switch_profile : SettingChange :=
  {| name := "profile"; value := Str "web" |}.

Definition same_profile : SettingChange :=
  {| name := "profile"; value := Str "default" |}.

(** A name the allow-list does not know. *)
Definition misspelt : SettingChange :=
  {| name := "max_thread"; value := UInt64 4 |}.

(** The table [limits] under the replace policy. *)
Definition replacing : SettingsConstraints :=
  {| access_control := access true; constraints := constraints limits |}.

(** A comment, a setting that has no current value in the snapshot. *)
Definition comment : SettingChange :=
  {| name := "log_comment"; value := Str "nightly" |}.

End Sample.

(** * Properties *)

Section Properties.
Context `{C : Collaborators}.
Implicit Types (r constraint other_constraint : Range).
Implicit Types (change : SettingChange) (changes : list SettingChange).
Implicit Types (sc this other : SettingsConstraints) (current_settings : Settings).
Implicit Types (reaction : ReactionOnViolation) (setting_name : string).

(** ** merge *)

Lemma refine_min_value constraint other_constraint :
  min_value (refine constraint other_constraint) =
  if isNull (min_value other_constraint) then min_value constraint
  else min_value other_constraint.
Proof.
  unfold refine.
  destruct (isNull (min_value other_constraint)),
    (isNull (max_value other_constraint)), (is_const other_constraint); reflexivity.
Qed.

Lemma refine_max_value constraint other_constraint :
  max_value (refine constraint other_constraint) =
  if isNull (max_value other_constraint) then max_value constraint
  else max_value other_constraint.
Proof.
  unfold refine.
  destruct (isNull (min_value other_constraint)),
    (isNull (max_value other_constraint)), (is_const other_constraint); reflexivity.
Qed.

Lemma refine_is_const constraint other_constraint :
  is_const (refine constraint other_constraint) =
  is_const constraint || is_const other_constraint.
Proof.
  unfold refine.
  destruct (isNull (min_value other_constraint)),
    (isNull (max_value other_constraint)), (is_const other_constraint);
    simpl; rewrite ?orb_true_r, ?orb_false_r; reflexivity.
Qed.

Lemma refine_changeable_in_readonly constraint other_constraint :
  changeable_in_readonly (refine constraint other_constraint) =
  changeable_in_readonly constraint.
Proof.
  unfold refine.
  destruct (isNull (min_value other_constraint)),
    (isNull (max_value other_constraint)), (is_const other_constraint); reflexivity.
Qed.

(** The loop of the refine branch, entry by entry. *)
Lemma merge_refine_lookup (this other : gmap string Range) (k : string) :
  merge_refine this other !! k =
  match other !! k with
  | Some other_constraint => Some (refine (entry this k) other_constraint)
  | None => this !! k
  end.
Proof.
  unfold merge_refine. revert k.
  apply (map_fold_weak_ind
    (λ acc (m : gmap string Range), ∀ k,
       acc !! k = match m !! k with
                  | Some oc => Some (refine (entry this k) oc)
                  | None => this !! k
                  end)).
  - intros k. by rewrite lookup_empty.
  - intros i x m acc Hi IH k. destruct (decide (i = k)) as [->|Hne].
    + rewrite !lookup_insert_eq. unfold entry. by rewrite IH, Hi.
    + rewrite !lookup_insert_ne by done. apply IH.
Qed.

Lemma merge_replace_lookup (this other : gmap string Range) (k : string) :
  merge_replace this other !! k =
  match other !! k with
  | Some other_constraint => Some other_constraint
  | None => this !! k
  end.
Proof.
  unfold merge_replace. revert k.
  apply (map_fold_weak_ind
    (λ acc (m : gmap string Range), ∀ k,
       acc !! k = match m !! k with Some oc => Some oc | None => this !! k end)).
  - intros k. by rewrite lookup_empty.
  - intros i x m acc Hi IH k. destruct (decide (i = k)) as [->|Hne].
    + by rewrite !lookup_insert_eq.
    + rewrite !lookup_insert_ne by done. apply IH.
Qed.

Lemma merge_access_control this other :
  access_control (merge this other) = access_control this.
Proof.
  unfold merge.
  by destruct (doesSettingsConstraintsReplacePrevious (access_control this)).
Qed.

Lemma merge_refine_constraints this other :
  doesSettingsConstraintsReplacePrevious (access_control this) = false →
  constraints (merge this other) =
  merge_refine (constraints this) (constraints other).
Proof. intros Hp. unfold merge. by rewrite Hp. Qed.

(** A constant entry stays constant through one refining merge. *)
Lemma merge_refine_keeps_const this other setting_name r :
  doesSettingsConstraintsReplacePrevious (access_control this) = false →
  constraints this !! setting_name = Some r →
  is_const r = true →
  ∃ r', constraints (merge this other) !! setting_name = Some r'
        ∧ is_const r' = true.
Proof.
  intros Hp Hr Hc. rewrite merge_refine_constraints, merge_refine_lookup by done.
  destruct (constraints other !! setting_name) as [oc|]; [|eauto].
  eexists; split; [done|].
  rewrite refine_is_const. unfold entry. by rewrite Hr; simpl; rewrite Hc.
Qed.

(** C5: under the refine policy [merge] works field by field.  For an
    entry of the other table, a non-null [min_value] or [max_value]
    overwrites the field of this table (a null one leaves it), and
    [is_const] is the disjunction of the two flags; names the other table
    does not mention are untouched; and an entry that is constant stays
    constant through every further sequence of merges. *)
Theorem merge_refine_per_field this other :
  doesSettingsConstraintsReplacePrevious (access_control this) = false →
  (∀ setting_name other_constraint,
     constraints other !! setting_name = Some other_constraint →
     ∃ r, constraints (merge this other) !! setting_name = Some r
          ∧ min_value r =
              (if isNull (min_value other_constraint)
               then min_value (entry (constraints this) setting_name)
               else min_value other_constraint)
          ∧ max_value r =
              (if isNull (max_value other_constraint)
               then max_value (entry (constraints this) setting_name)
               else max_value other_constraint)
          ∧ is_const r =
              is_const (entry (constraints this) setting_name)
              || is_const other_constraint)
  ∧ (∀ setting_name,
       constraints other !! setting_name = None →
       constraints (merge this other) !! setting_name
       = constraints this !! setting_name)
  ∧ (∀ setting_name r (others : list SettingsConstraints),
       constraints this !! setting_name = Some r →
       is_const r = true →
       ∃ r', constraints (foldl merge this others) !! setting_name = Some r'
             ∧ is_const r' = true).
Proof.
  intros Hp. split; [|split].
  - intros n oc Ho. rewrite merge_refine_constraints, merge_refine_lookup, Ho by done.
    eexists; split; [done|].
    by rewrite refine_min_value, refine_max_value, refine_is_const.
  - intros n Ho. by rewrite merge_refine_constraints, merge_refine_lookup, Ho.
  - intros n r others. revert this Hp r.
    induction others as [|o others IH]; intros this Hp r Hr Hc; simpl.
    + eauto.
    + destruct (merge_refine_keeps_const this o n r Hp Hr Hc) as (r' & Hr' & Hc').
      apply (IH (merge this o)) with r'; [|done..].
      by rewrite merge_access_control.
Qed.

(** C10: under the refine policy [merge] never writes
    [changeable_in_readonly]: an entry that was there keeps its flag, and an
    entry the merge creates has the flag of a default-constructed range,
    [false], whatever the flag of the other table's entry. *)
Theorem merge_refine_changeable_in_readonly this other :
  doesSettingsConstraintsReplacePrevious (access_control this) = false →
  (∀ setting_name r,
     constraints this !! setting_name = Some r →
     ∃ r', constraints (merge this other) !! setting_name = Some r'
           ∧ changeable_in_readonly r' = changeable_in_readonly r)
  ∧ (∀ setting_name other_constraint,
       constraints this !! setting_name = None →
       constraints other !! setting_name = Some other_constraint →
       ∃ r', constraints (merge this other) !! setting_name = Some r'
             ∧ changeable_in_readonly r' = false).
Proof.
  intros Hp. split.
  - intros n r Hr. rewrite merge_refine_constraints, merge_refine_lookup by done.
    destruct (constraints other !! n) as [oc|]; [|eauto].
    eexists; split; [done|].
    rewrite refine_changeable_in_readonly. unfold entry. by rewrite Hr.
  - intros n oc Hr Ho. rewrite merge_refine_constraints, merge_refine_lookup, Ho by done.
    eexists; split; [done|].
    rewrite refine_changeable_in_readonly. unfold entry. by rewrite Hr.
Qed.

(** ** getRange *)

(** C2: [getRange] resolves the effective range.  A write of [allow_ddl]
    while DDL is prohibited is forbidden, and so is a write of [readonly]
    at a readonly level above 1, both whatever the table holds.  Otherwise,
    at level 1 a missing entry, or one that is not changeable in readonly
    mode, gives a forbidden range and an entry that is changeable is
    returned as stored; at levels 0 and 2 a missing entry gives the
    unrestricted range and a stored entry is returned as it is. *)
Theorem getRange_resolution sc current_settings setting_name :
  (allow_ddl current_settings = false → setting_name = "allow_ddl" →
   getRange sc current_settings setting_name =
   Range_forbidden
     "Cannot modify 'allow_ddl' setting when DDL queries are prohibited for the user"
     QUERY_IS_PROHIBITED)
  ∧ ((1 < readonly current_settings)%N → setting_name = "readonly" →
     getRange sc current_settings setting_name =
     Range_forbidden "Cannot modify 'readonly' setting in readonly mode" READONLY)
  ∧ (¬ (allow_ddl current_settings = false ∧ setting_name = "allow_ddl") →
     ¬ ((1 < readonly current_settings)%N ∧ setting_name = "readonly") →
     (readonly current_settings = 1%N →
      (constraints sc !! setting_name = None
       ∨ ∃ r, constraints sc !! setting_name = Some r
              ∧ changeable_in_readonly r = false) →
      getRange sc current_settings setting_name =
      Range_forbidden
        ("Cannot modify '" +:+ setting_name +:+ "' setting in readonly mode")
        READONLY)
     ∧ (readonly current_settings = 1%N →
        ∀ r, constraints sc !! setting_name = Some r →
             changeable_in_readonly r = true →
             getRange sc current_settings setting_name = r)
     ∧ (readonly current_settings = 0%N ∨ readonly current_settings = 2%N →
        constraints sc !! setting_name = None →
        getRange sc current_settings setting_name = Range_allowed)
     ∧ (readonly current_settings = 0%N ∨ readonly current_settings = 2%N →
        ∀ r, constraints sc !! setting_name = Some r →
             getRange sc current_settings setting_name = r))
  ∧ (has_min Range_allowed = false ∧ has_max Range_allowed = false
     ∧ is_const Range_allowed = false ∧ is_forbidden Range_allowed = false).
Proof.
  split; [|split; [|split]].
  - intros Hddl ->. unfold getRange. by rewrite Hddl.
  - intros Hro ->. unfold getRange.
    rewrite bool_decide_eq_false_2, andb_false_r by done.
    apply N.ltb_lt in Hro. by rewrite Hro.
  - intros Hddl Hro.
    assert (negb (allow_ddl current_settings)
            && bool_decide (setting_name = "allow_ddl") = false) as E1.
    { apply andb_false_iff. destruct (allow_ddl current_settings) eqn:E; [by left|].
      right. apply bool_decide_eq_false_2. intros ->. by apply Hddl. }
    assert ((1 <? readonly current_settings)%N
            && bool_decide (setting_name = "readonly") = false) as E2.
    { apply andb_false_iff.
      destruct (1 <? readonly current_settings)%N eqn:E; [|by left].
      right. apply bool_decide_eq_false_2. intros ->. apply Hro.
      split; [by apply N.ltb_lt|done]. }
    unfold getRange. rewrite E1, E2.
    split; [|split; [|split]].
    + intros -> [Hn|(r & Hr & Hc)]; simpl.
      * by rewrite Hn.
      * by rewrite Hr, Hc.
    + intros -> r Hr Hc; simpl. by rewrite Hr, Hc.
    + intros [-> | ->] Hn; simpl; by rewrite Hn.
    + intros [-> | ->] r Hr; simpl; by rewrite Hr.
  - unfold has_min, has_max, is_forbidden; simpl.
    by rewrite isNull_default.
Qed.

(** ** Range::check *)

Lemma is_forbidden_false r : is_forbidden r = false ↔ explain r = "".
Proof.
  unfold is_forbidden. rewrite negb_false_iff. apply String.eqb_eq.
Qed.

Lemma less_or_cannot_compare_clamp (left right : Field) :
  less_or_cannot_compare CLAMP_ON_VIOLATION left right
  = Ok (less_or_failed left right).
Proof.
  unfold less_or_cannot_compare, less_or_failed.
  by destruct (FieldVisitorAccurateLess left right).
Qed.

Lemma less_or_failed_false (left right : Field) :
  less_or_failed left right = false ↔ FieldVisitorAccurateLess left right = Ok false.
Proof.
  unfold less_or_failed.
  destruct (FieldVisitorAccurateLess left right) as [[]|]; split; congruence.
Qed.

Lemma gates_pass_bools r :
  gates_pass r ↔ is_forbidden r || is_const r || inconsistent_bounds r = false.
Proof.
  unfold gates_pass, inconsistent_bounds.
  rewrite !orb_false_iff, !andb_false_iff, less_or_failed_false.
  destruct (has_min r), (has_max r); intuition congruence.
Qed.

(** Under [CLAMP_ON_VIOLATION] the call is total: the three gates drop the
    change, and past them the two bound tests are applied one after the
    other to [new_value], the later assignment standing. *)
Lemma Range_check_clamp r change (new_value : Field) :
  Range_check r change new_value CLAMP_ON_VIOLATION =
  Ok (if is_forbidden r || is_const r || inconsistent_bounds r
      then (false, change)
      else (true,
            if above_max r new_value then set_value change (max_value r)
            else if below_min r new_value then set_value change (min_value r)
            else change)).
Proof.
  unfold Range_check, reject, throw_or_assign.
  rewrite !less_or_cannot_compare_clamp.
  unfold inconsistent_bounds, below_min, above_max, has_min, has_max, is_forbidden.
  destruct (negb (String.eqb (explain r) "")); [done|].
  destruct (is_const r); [done|].
  destruct (negb (isNull (min_value r))), (negb (isNull (max_value r))); simpl;
    repeat
      match goal with
      | |- context [less_or_failed ?a ?b] => destruct (less_or_failed a b); simpl
      end; done.
Qed.

(** Under [THROW_ON_VIOLATION], past the gates, the two bound tests raise in
    order, and a comparison that fails raises its own exception. *)
Lemma Range_check_throw r change (new_value : Field) :
  gates_pass r →
  Range_check r change new_value THROW_ON_VIOLATION =
  (below ← (if has_min r
            then FieldVisitorAccurateLess new_value (min_value r)
            else Ok false);
   if (below : bool)
   then Raise (less_than_min (name change) (min_value r))
   else
     above ← (if has_max r
              then FieldVisitorAccurateLess (max_value r) new_value
              else Ok false);
     if (above : bool)
     then Raise (greater_than_max (name change) (max_value r))
     else Ok (true, change)).
Proof.
  intros (Hf & Hc & Hb).
  unfold Range_check, reject, throw_or_assign, less_or_cannot_compare.
  unfold has_min, has_max, is_forbidden in *. rewrite Hf, Hc.
  destruct (negb (isNull (min_value r))), (negb (isNull (max_value r))); simpl;
    rewrite ?Hb by done; simpl;
    repeat
      match goal with
      | |- context [FieldVisitorAccurateLess ?a ?b] =>
          destruct (FieldVisitorAccurateLess a b) as [[]|]; simpl
      end; done.
Qed.

(** The gates themselves, for either reaction. *)
Lemma Range_check_forbidden r change (new_value : Field) reaction :
  is_forbidden r = true →
  Range_check r change new_value reaction
  = reject reaction (mkException (explain r) (range_code r)) change.
Proof. intros Hf. unfold Range_check. unfold is_forbidden in Hf. by rewrite Hf. Qed.

Lemma Range_check_const r change (new_value : Field) reaction :
  is_forbidden r = false → is_const r = true →
  Range_check r change new_value reaction
  = reject reaction (should_not_be_changed (name change)) change.
Proof.
  intros Hf Hc. unfold Range_check. unfold is_forbidden in Hf. by rewrite Hf, Hc.
Qed.

Lemma Range_check_inconsistent r change (new_value : Field) reaction :
  is_forbidden r = false → is_const r = false →
  has_min r = true → has_max r = true →
  FieldVisitorAccurateLess (max_value r) (min_value r) = Ok true →
  Range_check r change new_value reaction
  = reject reaction (should_not_be_changed (name change)) change.
Proof.
  intros Hf Hc Hmin Hmax Hlt. unfold Range_check.
  unfold is_forbidden, has_min, has_max in *. rewrite Hf, Hc, Hmin, Hmax. simpl.
  unfold less_or_cannot_compare. rewrite Hlt. by destruct reaction.
Qed.

(** C1 (amended): the tests of [Range::check] in their order.  The three
    gates (forbidden, constant, bounds out of order) are first-match-wins
    under both reactions: [THROW_ON_VIOLATION] raises, [CLAMP_ON_VIOLATION]
    drops the change untouched.  Past the gates, under
    [THROW_ON_VIOLATION] a value that orders below [min_value] raises the
    below-minimum violation, and otherwise one that [max_value] orders
    below raises the above-maximum violation.  Under [CLAMP_ON_VIOLATION]
    the change is kept and both bound tests are applied to [new_value] one
    after the other: the below-minimum test assigns [min_value], and the
    above-maximum test is still evaluated and, when it matches too, its
    assignment of [max_value] is the one that stands; when it does not
    match, the change is kept with [min_value].  A value inside the bounds
    is accepted unchanged under both reactions. *)
Theorem Range_check_order r change (new_value : Field) :
  (is_forbidden r = true →
   Range_check r change new_value THROW_ON_VIOLATION
   = Raise (mkException (explain r) (range_code r))
   ∧ Range_check r change new_value CLAMP_ON_VIOLATION = Ok (false, change))
  ∧ (is_forbidden r = false → is_const r = true →
     Range_check r change new_value THROW_ON_VIOLATION
     = Raise (should_not_be_changed (name change))
     ∧ Range_check r change new_value CLAMP_ON_VIOLATION = Ok (false, change))
  ∧ (is_forbidden r = false → is_const r = false →
     has_min r = true → has_max r = true →
     FieldVisitorAccurateLess (max_value r) (min_value r) = Ok true →
     Range_check r change new_value THROW_ON_VIOLATION
     = Raise (should_not_be_changed (name change))
     ∧ Range_check r change new_value CLAMP_ON_VIOLATION = Ok (false, change))
  ∧ (gates_pass r → has_min r = true →
     FieldVisitorAccurateLess new_value (min_value r) = Ok true →
     Range_check r change new_value THROW_ON_VIOLATION
     = Raise (less_than_min (name change) (min_value r)))
  ∧ (gates_pass r → below_min r new_value = true →
     Range_check r change new_value CLAMP_ON_VIOLATION
     = Ok (true, if above_max r new_value
                 then set_value change (max_value r)
                 else set_value change (min_value r)))
  ∧ (gates_pass r →
     (has_min r = true →
      FieldVisitorAccurateLess new_value (min_value r) = Ok false) →
     has_max r = true →
     FieldVisitorAccurateLess (max_value r) new_value = Ok true →
     Range_check r change new_value THROW_ON_VIOLATION
     = Raise (greater_than_max (name change) (max_value r)))
  ∧ (gates_pass r → above_max r new_value = true →
     Range_check r change new_value CLAMP_ON_VIOLATION
     = Ok (true, set_value change (max_value r)))
  ∧ (gates_pass r →
     (has_min r = true →
      FieldVisitorAccurateLess new_value (min_value r) = Ok false) →
     (has_max r = true →
      FieldVisitorAccurateLess (max_value r) new_value = Ok false) →
     ∀ reaction, Range_check r change new_value reaction = Ok (true, change))
  ∧ (gates_pass r → has_min r = true →
     FieldVisitorAccurateLess new_value (min_value r) = Ok true →
     (has_max r = true →
      FieldVisitorAccurateLess (max_value r) new_value = Ok false) →
     Range_check r change new_value CLAMP_ON_VIOLATION
     = Ok (true, set_value change (min_value r))).
Proof.
  repeat split.
  - by rewrite Range_check_forbidden.
  - by rewrite Range_check_forbidden.
  - by rewrite Range_check_const.
  - by rewrite Range_check_const.
  - by rewrite Range_check_inconsistent.
  - by rewrite Range_check_inconsistent.
  - intros Hg Hmin Hlt. by rewrite Range_check_throw, Hmin, Hlt.
  - intros Hg Hb. rewrite Range_check_clamp.
    apply gates_pass_bools in Hg. by rewrite Hg, Hb.
  - intros Hg Hnb Hmax Hlt. rewrite Range_check_throw, Hmax, Hlt by done.
    destruct (has_min r); [by rewrite Hnb|done].
  - intros Hg Ha. rewrite Range_check_clamp.
    apply gates_pass_bools in Hg. by rewrite Hg, Ha.
  - intros Hg Hnb Hna [].
    + rewrite Range_check_throw by done.
      destruct (has_min r); [rewrite Hnb by done|]; simpl;
        (destruct (has_max r); [by rewrite Hna|done]).
    + rewrite Range_check_clamp. apply gates_pass_bools in Hg. rewrite Hg.
      unfold above_max, below_min.
      destruct (has_min r); simpl;
        [rewrite (proj2 (less_or_failed_false _ _) (Hnb eq_refl))|];
        (destruct (has_max r); simpl;
         [by rewrite (proj2 (less_or_failed_false _ _) (Hna eq_refl))|done]).
  - intros Hg Hmin Hlt Hna. rewrite Range_check_clamp.
    apply gates_pass_bools in Hg. rewrite Hg.
    unfold above_max, below_min. rewrite Hmin. simpl.
    assert (less_or_failed new_value (min_value r) = true) as ->
      by (unfold less_or_failed; by rewrite Hlt).
    destruct (has_max r); simpl;
      [by rewrite (proj2 (less_or_failed_false _ _) (Hna eq_refl))|done].
Qed.

(** C7: a range whose two bounds are set with [max_value] ordering below
    [min_value] is treated as a constant one.  The call gives what it gives
    for the same range marked constant; [CLAMP_ON_VIOLATION] drops the
    change without rewriting it, and [THROW_ON_VIOLATION] raises (the
    violation of a constant setting, unless the range is forbidden, whose
    own exception comes first). *)
Theorem inconsistent_range_like_const r change (new_value : Field) :
  has_min r = true → has_max r = true →
  FieldVisitorAccurateLess (max_value r) (min_value r) = Ok true →
  (∀ reaction,
     Range_check r change new_value reaction
     = Range_check (with_is_const r true) change new_value reaction)
  ∧ Range_check r change new_value CLAMP_ON_VIOLATION = Ok (false, change)
  ∧ Range_check r change new_value THROW_ON_VIOLATION
    = Raise (if is_forbidden r
             then mkException (explain r) (range_code r)
             else should_not_be_changed (name change)).
Proof.
  intros Hmin Hmax Hlt.
  destruct (is_forbidden r) eqn:Hf.
  - split; [|split].
    + intros reaction. by rewrite !Range_check_forbidden.
    + by rewrite Range_check_forbidden.
    + by rewrite Range_check_forbidden.
  - destruct (is_const r) eqn:Hc.
    + split; [|split].
      * intros reaction. by rewrite !Range_check_const.
      * by rewrite Range_check_const.
      * by rewrite Range_check_const.
    + split; [|split].
      * intros reaction. rewrite Range_check_inconsistent by done.
        by rewrite Range_check_const.
      * by rewrite Range_check_inconsistent.
      * by rewrite Range_check_inconsistent.
Qed.

(** C8 (amended): a comparison that fails.  Under [CLAMP_ON_VIOLATION]
    the failure counts as [true]: between the two bounds it drops the
    change, against [min_value] or [max_value] it clamps the change to a
    bound.  Under [THROW_ON_VIOLATION] the failure is not turned into a
    bound violation: the exception of the comparison itself leaves the
    call. *)
Theorem incomparable_bounds r change (new_value : Field) (e : Exception) :
  (∀ left right : Field,
     FieldVisitorAccurateLess left right = Raise e →
     less_or_cannot_compare CLAMP_ON_VIOLATION left right = Ok true
     ∧ less_or_cannot_compare THROW_ON_VIOLATION left right = Raise e)
  ∧ (is_forbidden r = false → is_const r = false →
     has_min r = true → has_max r = true →
     FieldVisitorAccurateLess (max_value r) (min_value r) = Raise e →
     Range_check r change new_value CLAMP_ON_VIOLATION = Ok (false, change)
     ∧ Range_check r change new_value THROW_ON_VIOLATION = Raise e)
  ∧ (gates_pass r → has_min r = true →
     FieldVisitorAccurateLess new_value (min_value r) = Raise e →
     Range_check r change new_value CLAMP_ON_VIOLATION
     = Ok (true, if above_max r new_value
                 then set_value change (max_value r)
                 else set_value change (min_value r))
     ∧ Range_check r change new_value THROW_ON_VIOLATION = Raise e)
  ∧ (gates_pass r → has_max r = true →
     FieldVisitorAccurateLess (max_value r) new_value = Raise e →
     Range_check r change new_value CLAMP_ON_VIOLATION
     = Ok (true, set_value change (max_value r))
     ∧ ((has_min r = true →
         FieldVisitorAccurateLess new_value (min_value r) = Ok false) →
        Range_check r change new_value THROW_ON_VIOLATION = Raise e)).
Proof.
  split; [|split; [|split]].
  - intros left right He. unfold less_or_cannot_compare. by rewrite He.
  - intros Hf Hc Hmin Hmax He. split.
    + rewrite Range_check_clamp. unfold inconsistent_bounds, less_or_failed.
      by rewrite Hf, Hc, Hmin, Hmax, He.
    + unfold Range_check, less_or_cannot_compare.
      unfold is_forbidden, has_min, has_max in *.
      by rewrite Hf, Hc, Hmin, Hmax, He.
  - intros Hg Hmin He. split.
    + rewrite Range_check_clamp. apply gates_pass_bools in Hg. rewrite Hg.
      unfold below_min, less_or_failed. by rewrite Hmin, He.
    + by rewrite Range_check_throw, Hmin, He.
  - intros Hg Hmax He. split.
    + rewrite Range_check_clamp. apply gates_pass_bools in Hg. rewrite Hg.
      unfold above_max, less_or_failed. by rewrite Hmax, He.
    + intros Hnb. rewrite Range_check_throw, Hmax, He by done.
      destruct (has_min r); [by rewrite Hnb|done].
Qed.

(** ** checkImpl *)

Lemma checkImpl_profile sc current_settings change reaction :
  name change = "profile" →
  checkImpl sc current_settings change reaction = Ok (true, change).
Proof. intros Hn. unfold checkImpl. by rewrite bool_decide_eq_true_2. Qed.

(** [checkImpl] under [CLAMP_ON_VIOLATION], for a name other than the
    profile: it never raises, and all that is left to the range is a value
    that is known, was cast, and differs from the current one. *)
Lemma checkImpl_clamp sc current_settings change :
  name change ≠ "profile" →
  checkImpl sc current_settings change CLAMP_ON_VIOLATION =
  if negb (isSettingNameAllowed (access_control sc) (name change))
  then Ok (false, change)
  else match castValueUtil (name change) (value change) with
       | Raise _ => Ok (false, change)
       | Ok new_value =>
           if value_unchanged current_settings change then Ok (false, change)
           else Range_check (getRange sc current_settings (name change))
                            change new_value CLAMP_ON_VIOLATION
       end.
Proof.
  intros Hn. unfold checkImpl, name_allowed, cast_value, value_unchanged.
  rewrite bool_decide_eq_false_2 by done. simpl.
  destruct (negb (isSettingNameAllowed _ _)); [done|].
  destruct (tryGet current_settings (name change)) as [cur|];
    destruct (castValueUtil (name change) (value change)) as [v|e]; simpl.
  - destruct (bool_decide (value change = cur)); [done|]. simpl.
    rewrite orb_false_r. by destruct (bool_decide (v = cur)).
  - rewrite orb_true_r. by destruct (bool_decide (value change = cur)).
  - done.
  - done.
Qed.

(** [checkImpl] under [THROW_ON_VIOLATION], for a name that passes the
    allow-list. *)
Lemma checkImpl_throw sc current_settings change :
  name change ≠ "profile" →
  checkSettingNameIsAllowed (access_control sc) (name change) = None →
  checkImpl sc current_settings change THROW_ON_VIOLATION =
  match tryGet current_settings (name change) with
  | Some current_value =>
      if bool_decide (value change = current_value) then Ok (false, change)
      else
        new_value ← castValueUtil (name change) (value change);
        if bool_decide (new_value = current_value) then Ok (false, change)
        else Range_check (getRange sc current_settings (name change))
                         change new_value THROW_ON_VIOLATION
  | None =>
      new_value ← castValueUtil (name change) (value change);
      Range_check (getRange sc current_settings (name change))
                  change new_value THROW_ON_VIOLATION
  end.
Proof.
  intros Hn Ha. unfold checkImpl, name_allowed, cast_value.
  rewrite bool_decide_eq_false_2, Ha by done. simpl.
  destruct (tryGet current_settings (name change)) as [cur|].
  - destruct (bool_decide (value change = cur)); [done|].
    destruct (castValueUtil (name change) (value change)) as [v|e]; simpl; [|done].
    by rewrite orb_false_r.
  - by destruct (castValueUtil (name change) (value change)).
Qed.

(** A name the allow-list refuses raises under [THROW_ON_VIOLATION]. *)
Lemma checkImpl_throw_disallowed sc current_settings change (e : Exception) :
  name change ≠ "profile" →
  checkSettingNameIsAllowed (access_control sc) (name change) = Some e →
  checkImpl sc current_settings change THROW_ON_VIOLATION
  = Raise (with_hints current_settings (name change) e).
Proof.
  intros Hn Ha. unfold checkImpl, name_allowed, with_hints.
  rewrite bool_decide_eq_false_2, Ha by done.
  destruct (bool_decide (code e = UNKNOWN_SETTING));
    by destruct (getHints current_settings (name change)).
Qed.

(** Under [THROW_ON_VIOLATION] the range never drops and never rewrites:
    it accepts the change as it is or raises. *)
Lemma Range_check_throw_Ok r change (new_value : Field) (b : bool) change' :
  Range_check r change new_value THROW_ON_VIOLATION = Ok (b, change') →
  b = true ∧ change' = change.
Proof.
  unfold Range_check, reject, throw_or_assign, less_or_cannot_compare.
  destruct (negb (String.eqb (explain r) "")); [done|].
  destruct (is_const r); [done|].
  destruct (negb (isNull (min_value r))), (negb (isNull (max_value r))); simpl;
    repeat
      match goal with
      | |- context [FieldVisitorAccurateLess ?x ?y] =>
          destruct (FieldVisitorAccurateLess x y) as [[]|]; simpl
      end; try done; by intros [= <- <-].
Qed.

(** What [checkImpl] can answer under [THROW_ON_VIOLATION]: the change is
    never rewritten, and it is dropped exactly when it is not the profile
    and proposes the current value. *)
Lemma checkImpl_throw_Ok sc current_settings change (b : bool) change' :
  checkImpl sc current_settings change THROW_ON_VIOLATION = Ok (b, change') →
  change' = change
  ∧ b = negb (negb (bool_decide (name change = "profile"))
              && value_unchanged current_settings change).
Proof.
  destruct (decide (name change = "profile")) as [Hn|Hn].
  - rewrite checkImpl_profile by done. intros [= <- <-].
    by rewrite bool_decide_eq_true_2.
  - rewrite (bool_decide_eq_false_2 _ Hn). simpl.
    destruct (checkSettingNameIsAllowed (access_control sc) (name change))
      as [e|] eqn:Ha.
    { by rewrite (checkImpl_throw_disallowed _ _ _ _ Hn Ha). }
    rewrite checkImpl_throw by done. unfold value_unchanged.
    destruct (tryGet current_settings (name change)) as [cur|].
    + destruct (bool_decide (value change = cur)); [by intros [= <- <-]|].
      destruct (castValueUtil (name change) (value change)) as [v|e]; simpl; [|done].
      destruct (bool_decide (v = cur)); [by intros [= <- <-]|].
      intros H. by apply Range_check_throw_Ok in H as [-> ->].
    + destruct (castValueUtil (name change) (value change)) as [v|e]; simpl; [|done].
      intros H. by apply Range_check_throw_Ok in H as [-> ->].
Qed.

Lemma checkImpl_clamp_total sc current_settings change :
  ∃ (b : bool) change',
    checkImpl sc current_settings change CLAMP_ON_VIOLATION = Ok (b, change').
Proof.
  destruct (decide (name change = "profile")) as [Hn|Hn].
  - rewrite checkImpl_profile by done. eauto.
  - rewrite checkImpl_clamp by done.
    destruct (negb (isSettingNameAllowed _ _)); [eauto|].
    destruct (castValueUtil (name change) (value change)) as [v|e]; [|eauto].
    destruct (value_unchanged current_settings change); [eauto|].
    rewrite Range_check_clamp.
    destruct (is_forbidden _ || is_const _ || inconsistent_bounds _); eauto.
Qed.

(** ** getRange, continued *)

(** A stored entry is what [getRange] returns unless the mode forbids the
    setting. *)
Lemma getRange_entry sc current_settings setting_name r :
  constraints sc !! setting_name = Some r →
  getRange sc current_settings setting_name = r
  ∨ is_forbidden (getRange sc current_settings setting_name) = true.
Proof.
  intros Hr. unfold getRange. rewrite Hr.
  repeat match goal with
         | |- context [if ?b then _ else _] => destruct b
         end; auto.
Qed.

(** A range with a bound comes from the table. *)
Lemma getRange_with_bound sc current_settings setting_name :
  has_min (getRange sc current_settings setting_name) = true
  ∨ has_max (getRange sc current_settings setting_name) = true →
  constraints sc !! setting_name
  = Some (getRange sc current_settings setting_name).
Proof.
  unfold getRange, has_min, has_max.
  destruct (constraints sc !! setting_name) as [r|];
    repeat match goal with
           | |- context [if ?b then _ else _] => destruct b
           end; simpl; rewrite ?isNull_default; simpl;
    intros [?|?]; done.
Qed.

(** ** The batch forms *)

Lemma batch_cons sc current_settings reaction change changes :
  remove_erase_if (not_checkImpl sc current_settings reaction) (change :: changes) =
  (r ← checkImpl sc current_settings change reaction;
   rest ← remove_erase_if (not_checkImpl sc current_settings reaction) changes;
   Ok (if (r.1 : bool) then r.2 :: rest else rest)).
Proof.
  cbn [remove_erase_if].
  generalize (remove_erase_if (not_checkImpl sc current_settings reaction) changes).
  intros tail. unfold not_checkImpl.
  destruct (checkImpl sc current_settings change reaction) as [[[] c']|e];
    simpl; [| |done]; by destruct tail.
Qed.

Lemma clamp_cons sc current_settings change changes :
  clamp sc current_settings (change :: changes) =
  (r ← checkImpl sc current_settings change CLAMP_ON_VIOLATION;
   rest ← clamp sc current_settings changes;
   Ok (if (r.1 : bool) then r.2 :: rest else rest)).
Proof. apply batch_cons. Qed.

Lemma check_cons sc current_settings change changes :
  check sc current_settings (change :: changes) =
  (r ← checkImpl sc current_settings change THROW_ON_VIOLATION;
   rest ← check sc current_settings changes;
   Ok (if (r.1 : bool) then r.2 :: rest else rest)).
Proof. apply batch_cons. Qed.

Lemma clamp_omap sc current_settings changes :
  clamp sc current_settings changes
  = Ok (omap (kept_by sc current_settings CLAMP_ON_VIOLATION) changes).
Proof.
  induction changes as [|c changes IH]; [done|].
  destruct (checkImpl_clamp_total sc current_settings c) as (b & c' & Hc).
  assert (kept_by sc current_settings CLAMP_ON_VIOLATION c
          = if b then Some c' else None) as Hk.
  { unfold kept_by. rewrite Hc. by destruct b. }
  rewrite clamp_cons, IH, Hc. cbn [omap list_omap]. rewrite Hk.
  by destruct b.
Qed.

Lemma check_filter sc current_settings changes (out : list SettingChange) :
  check sc current_settings changes = Ok out →
  out = filter (λ c, is_noop current_settings c = false) changes.
Proof.
  revert out. induction changes as [|c changes IH]; intros out.
  - by intros [= <-].
  - rewrite check_cons.
    destruct (checkImpl sc current_settings c THROW_ON_VIOLATION)
      as [[b c']|e] eqn:Hc; simpl; [|done].
    apply checkImpl_throw_Ok in Hc as [-> ->]. fold (is_noop current_settings c).
    destruct (check sc current_settings changes) as [rest|e]; simpl; [|done].
    intros [= <-]. rewrite (IH rest eq_refl).
    destruct (is_noop current_settings c) eqn:Hn; simpl.
    + by rewrite filter_cons_False by (by rewrite Hn).
    + by rewrite filter_cons_True by done.
Qed.

Lemma check_app_Raise sc current_settings (pre out : list SettingChange)
    change changes (e : Exception) :
  check sc current_settings pre = Ok out →
  checkImpl sc current_settings change THROW_ON_VIOLATION = Raise e →
  check sc current_settings (pre ++ change :: changes) = Raise e.
Proof.
  intros Hpre Hc. revert out Hpre.
  induction pre as [|p pre IH]; intros out; simpl.
  - intros _. by rewrite check_cons, Hc.
  - rewrite !check_cons.
    destruct (checkImpl sc current_settings p THROW_ON_VIOLATION)
      as [[b p']|e']; simpl; [|done].
    destruct (check sc current_settings pre) as [rest|e'] eqn:Hrest; simpl; [|done].
    intros _. by rewrite (IH rest eq_refl).
Qed.

(** C3 (amended): [clamp] never raises.  Its result is the list of the
    changes [checkImpl] keeps, each as it leaves it: unchanged, or with the
    value rewritten to the bound of the effective range that the cast value
    violates.  A change of any setting but the profile is dropped, as it
    was proposed, when its setting is constant or forbidden, when its name
    is not allowed, or when its value does not cast.  A change of the
    profile is always kept as it is. *)
Theorem clamp_never_raises sc current_settings changes :
  clamp sc current_settings changes
  = Ok (omap (kept_by sc current_settings CLAMP_ON_VIOLATION) changes)
  ∧ (∀ change, ∃ (b : bool) change',
       checkImpl sc current_settings change CLAMP_ON_VIOLATION = Ok (b, change')
       ∧ (change' = change
          ∨ ∃ new_value : Field,
              b = true
              ∧ castValueUtil (name change) (value change) = Ok new_value
              ∧ let r := getRange sc current_settings (name change) in
                (below_min r new_value = true
                 ∧ change' = set_value change (min_value r))
                ∨ (above_max r new_value = true
                   ∧ change' = set_value change (max_value r))))
  ∧ (∀ change,
       name change ≠ "profile" →
       (∃ r, constraints sc !! name change = Some r ∧ is_const r = true)
       ∨ is_const (getRange sc current_settings (name change)) = true
       ∨ is_forbidden (getRange sc current_settings (name change)) = true
       ∨ isSettingNameAllowed (access_control sc) (name change) = false
       ∨ (∃ e, castValueUtil (name change) (value change) = Raise e) →
       checkImpl sc current_settings change CLAMP_ON_VIOLATION
       = Ok (false, change))
  ∧ (∀ change,
       name change = "profile" →
       checkImpl sc current_settings change CLAMP_ON_VIOLATION
       = Ok (true, change)).
Proof.
  split; [apply clamp_omap|]. split; [|split].
  - intros change. destruct (decide (name change = "profile")) as [Hn|Hn].
    { rewrite checkImpl_profile by done. eauto. }
    rewrite checkImpl_clamp by done.
    destruct (negb (isSettingNameAllowed _ _)); [eauto|].
    destruct (castValueUtil (name change) (value change)) as [v|e]; [|eauto].
    destruct (value_unchanged current_settings change); [eauto|].
    rewrite Range_check_clamp.
    destruct (is_forbidden _ || is_const _ || inconsistent_bounds _); [eauto|].
    destruct (above_max _ v) eqn:Ha; [by eauto 10|].
    destruct (below_min _ v) eqn:Hb; [by eauto 10|eauto].
  - intros change Hn Hdrop. rewrite checkImpl_clamp by done.
    destruct (isSettingNameAllowed _ _) eqn:Hal; [simpl|done].
    destruct (castValueUtil (name change) (value change)) as [v|e] eqn:Hcast; [|done].
    destruct (value_unchanged current_settings change); [done|].
    rewrite Range_check_clamp.
    assert (is_forbidden (getRange sc current_settings (name change))
            || is_const (getRange sc current_settings (name change)) = true) as Hgate.
    { apply orb_true_iff.
      destruct Hdrop as [(r & Hr & Hc)|[Hc|[Hf|[?|[e ?]]]]]; try done; auto.
      destruct (getRange_entry sc current_settings _ _ Hr) as [->|Hf]; auto. }
    by rewrite Hgate.
  - intros change Hn. by apply checkImpl_profile.
Qed.

(** C4 (amended): the batch [check].  When it returns, what it removed
    are exactly the no-ops, and what it kept is unchanged; a no-op of an
    allowed name is skipped silently.  A name the allow-list refuses is not
    dropped: the exception of the allow-list is raised.  A violation found
    by the range is raised, and the first exception among the changes is
    the outcome of the whole call. *)
Theorem check_batch sc current_settings :
  (∀ changes (out : list SettingChange),
     check sc current_settings changes = Ok out →
     out = filter (λ c, is_noop current_settings c = false) changes)
  ∧ (∀ change changes,
       is_noop current_settings change = true →
       checkSettingNameIsAllowed (access_control sc) (name change) = None →
       check sc current_settings (change :: changes)
       = check sc current_settings changes)
  ∧ (∀ change (e : Exception),
       name change ≠ "profile" →
       checkSettingNameIsAllowed (access_control sc) (name change) = Some e →
       checkImpl sc current_settings change THROW_ON_VIOLATION
       = Raise (with_hints current_settings (name change) e))
  ∧ (∀ change (new_value : Field) (e : Exception),
       name change ≠ "profile" →
       checkSettingNameIsAllowed (access_control sc) (name change) = None →
       value_unchanged current_settings change = false →
       castValueUtil (name change) (value change) = Ok new_value →
       Range_check (getRange sc current_settings (name change))
                   change new_value THROW_ON_VIOLATION = Raise e →
       checkImpl sc current_settings change THROW_ON_VIOLATION = Raise e)
  ∧ (∀ (pre out : list SettingChange) change changes (e : Exception),
       check sc current_settings pre = Ok out →
       checkImpl sc current_settings change THROW_ON_VIOLATION = Raise e →
       check sc current_settings (pre ++ change :: changes) = Raise e).
Proof.
  split; [apply check_filter|]. split; [|split; [|split]].
  - intros change changes Hnoop Hal. unfold is_noop in Hnoop.
    apply andb_true_iff in Hnoop as [Hn Hu].
    apply negb_true_iff, bool_decide_eq_false in Hn.
    rewrite check_cons, checkImpl_throw by done.
    unfold value_unchanged in Hu.
    destruct (tryGet current_settings (name change)) as [cur|]; [|done].
    destruct (bool_decide (value change = cur)); simpl.
    + by destruct (check sc current_settings changes).
    + simpl in Hu.
      destruct (castValueUtil (name change) (value change)) as [v|e]; [|done].
      simpl. rewrite Hu. simpl. by destruct (check sc current_settings changes).
  - intros change e. apply checkImpl_throw_disallowed.
  - intros change v e Hn Hal Hu Hcast Hr. rewrite checkImpl_throw by done.
    unfold value_unchanged in Hu. rewrite Hcast in *. simpl.
    destruct (tryGet current_settings (name change)) as [cur|]; [|done].
    apply orb_false_iff in Hu as [-> ->]. done.
  - intros pre out change changes e. apply check_app_Raise.
Qed.

(** C6 (amended): a change whose value is the current one, as it stands
    or once cast.  For the profile it is kept as it is.  For another name
    that passes the allow-list it is a no-op under both reactions:
    [checkImpl] answers [false] without raising, whatever the table holds,
    and both batch forms leave it out.  A name the allow-list refuses is
    dropped under [CLAMP_ON_VIOLATION] and raises under
    [THROW_ON_VIOLATION], before the values are compared. *)
Theorem unchanged_value_is_noop sc current_settings change (current_value : Field) :
  tryGet current_settings (name change) = Some current_value →
  value change = current_value
  ∨ castValueUtil (name change) (value change) = Ok current_value →
  (name change = "profile" →
   ∀ reaction, checkImpl sc current_settings change reaction = Ok (true, change))
  ∧ (name change ≠ "profile" →
     ∀ reaction,
       name_allowed sc current_settings (name change) reaction = Ok true →
       (∀ m : gmap string Range,
          checkImpl (with_constraints sc m) current_settings change reaction
          = Ok (false, change))
       ∧ checkImpl sc current_settings change reaction = Ok (false, change)
       ∧ ∀ changes,
           remove_erase_if (not_checkImpl sc current_settings reaction)
                           (change :: changes)
           = remove_erase_if (not_checkImpl sc current_settings reaction) changes)
  ∧ (name change ≠ "profile" →
     isSettingNameAllowed (access_control sc) (name change) = false →
     checkImpl sc current_settings change CLAMP_ON_VIOLATION = Ok (false, change))
  ∧ (name change ≠ "profile" →
     ∀ e : Exception,
       checkSettingNameIsAllowed (access_control sc) (name change) = Some e →
       checkImpl sc current_settings change THROW_ON_VIOLATION
       = Raise (with_hints current_settings (name change) e)).
Proof.
  intros Hcur Heq. split; [|split; [|split]].
  - intros Hn reaction. by apply checkImpl_profile.
  - intros Hn reaction Hal.
    assert (∀ sc', access_control sc' = access_control sc →
                   checkImpl sc' current_settings change reaction
                   = Ok (false, change)) as Hnoop.
    { intros sc' Hac. unfold checkImpl.
      assert (name_allowed sc' current_settings (name change) reaction = Ok true)
        as -> by (unfold name_allowed in *; by rewrite Hac).
      rewrite bool_decide_eq_false_2, Hcur by done. simpl.
      destruct (decide (value change = current_value)) as [Hv|Hv].
      { by rewrite bool_decide_eq_true_2. }
      rewrite bool_decide_eq_false_2 by done.
      destruct Heq as [?|Hcast]; [done|].
      unfold cast_value. rewrite Hcast.
      destruct reaction; simpl; by rewrite bool_decide_eq_true_2. }
    split; [|split].
    + intros m. by apply Hnoop.
    + by apply Hnoop.
    + intros changes. rewrite batch_cons, (Hnoop sc eq_refl). simpl.
      by destruct (remove_erase_if _ changes).
  - intros Hn Hal. by rewrite checkImpl_clamp, Hal.
  - intros Hn e. by apply checkImpl_throw_disallowed.
Qed.

(** ** Running the batch forms again *)

Lemma restates_current_set_value current_settings change (bound : Field) :
  name change ≠ "profile" →
  castValueUtil (name change) bound = Ok bound →
  value_unchanged current_settings (set_value change bound)
  = restates_current current_settings (set_value change bound).
Proof.
  intros Hn Hcast. unfold value_unchanged, restates_current. simpl.
  rewrite Hcast, bool_decide_eq_false_2 by done. simpl.
  destruct (tryGet current_settings (name change)) as [cur|]; simpl.
  - rewrite orb_diag. apply bool_decide_ext. split; congruence.
  - done.
Qed.

(** A change that [clamp] kept, shown to [checkImpl] again: it is not
    rewritten a second time, and it is dropped exactly when it now restates
    the current value. *)
Lemma checkImpl_clamp_again sc current_settings change change' :
  canonical_bounds sc →
  checkImpl sc current_settings change CLAMP_ON_VIOLATION = Ok (true, change') →
  checkImpl sc current_settings change' CLAMP_ON_VIOLATION
  = Ok (negb (restates_current current_settings change'), change').
Proof.
  intros Hcanon.
  destruct (decide (name change = "profile")) as [Hn|Hn].
  { rewrite checkImpl_profile by done. intros [= <-].
    rewrite checkImpl_profile by done. unfold restates_current.
    by rewrite bool_decide_eq_true_2. }
  rewrite checkImpl_clamp by done.
  destruct (negb (isSettingNameAllowed _ _)) eqn:Hal; [done|].
  destruct (castValueUtil (name change) (value change)) as [v|e] eqn:Hcast; [|done].
  destruct (value_unchanged current_settings change) eqn:Hu; [done|].
  rewrite Range_check_clamp.
  set (r := getRange sc current_settings (name change)).
  destruct (is_forbidden r || is_const r || inconsistent_bounds r) eqn:Hg; [done|].
  (* the same change again *)
  assert (restates_current current_settings change = false) as Hsame.
  { unfold restates_current, value_unchanged in *.
    rewrite bool_decide_eq_false_2 by done. simpl.
    destruct (tryGet current_settings (name change)) as [cur|];
      [|by apply bool_decide_eq_false_2].
    apply orb_false_iff in Hu as [Hu _]. apply bool_decide_eq_false in Hu.
    apply bool_decide_eq_false_2. congruence. }
  (* a change clamped to a bound of the range *)
  assert (∀ bound : Field,
            canonical_bound (name change) bound →
            above_max r bound = false → below_min r bound = false →
            checkImpl sc current_settings (set_value change bound) CLAMP_ON_VIOLATION
            = Ok (negb (restates_current current_settings (set_value change bound)),
                  set_value change bound)) as Hbound.
  { intros bound [Hcb _] Ha Hb. rewrite checkImpl_clamp by done. simpl.
    rewrite Hal, Hcb. rewrite restates_current_set_value; [|done..].
    destruct (restates_current current_settings (set_value change bound));
      [done|].
    rewrite Range_check_clamp. fold r. by rewrite Hg, Ha, Hb. }
  pose proof Hg as Hinc. apply orb_false_iff in Hinc as [_ Hinc].
  destruct (above_max r v) eqn:Ha.
  - intros [= <-].
    assert (has_max r = true) as Hmax
      by (unfold above_max in Ha; by apply andb_true_iff in Ha as [? _]).
    pose proof (getRange_with_bound sc current_settings (name change)
                  (or_intror Hmax)) as Hentry.
    destruct (Hcanon _ _ Hentry) as [_ Hcmax]. fold r in Hcmax.
    specialize (Hcmax Hmax). apply Hbound; [done|..].
    + unfold above_max. rewrite Hmax. simpl.
      apply less_or_failed_false, Hcmax.
    + unfold below_min. unfold inconsistent_bounds in Hinc.
      rewrite Hmax, andb_true_r in Hinc. done.
  - destruct (below_min r v) eqn:Hb.
    + intros [= <-].
      assert (has_min r = true) as Hmin
        by (unfold below_min in Hb; by apply andb_true_iff in Hb as [? _]).
      pose proof (getRange_with_bound sc current_settings (name change)
                    (or_introl Hmin)) as Hentry.
      destruct (Hcanon _ _ Hentry) as [Hcmin _]. fold r in Hcmin.
      specialize (Hcmin Hmin). apply Hbound; [done|..].
      * unfold above_max. unfold inconsistent_bounds in Hinc.
        rewrite Hmin in Hinc. done.
      * unfold below_min. rewrite Hmin. simpl.
        apply less_or_failed_false, Hcmin.
    + intros [= <-]. rewrite Hsame. simpl.
      rewrite checkImpl_clamp, Hal, Hcast, Hu, Range_check_clamp by done.
      fold r. by rewrite Hg, Ha, Hb.
Qed.

(** C9 (amended): running the batch forms again.  [check] shown a list
    it returned returns the same list.  [clamp] shown its own output does
    not rewrite anything more (the stored bounds being canonical), but it
    is not a no-op: it drops every change that now restates the current
    value of its setting, which is what a change clamped to a bound equal
    to the current value does. *)
Theorem batch_again sc current_settings changes (out : list SettingChange) :
  (check sc current_settings changes = Ok out →
   check sc current_settings out = Ok out)
  ∧ (canonical_bounds sc →
     clamp sc current_settings changes = Ok out →
     clamp sc current_settings out
     = Ok (filter (λ c, restates_current current_settings c = false) out)).
Proof.
  split.
  - revert out. induction changes as [|c changes IH]; intros out.
    { by intros [= <-]. }
    rewrite check_cons.
    destruct (checkImpl sc current_settings c THROW_ON_VIOLATION)
      as [[b c']|e] eqn:Hc; simpl; [|done].
    destruct (check sc current_settings changes) as [rest|e]; simpl; [|done].
    intros [= <-]. specialize (IH rest eq_refl).
    pose proof (checkImpl_throw_Ok _ _ _ _ _ Hc) as [-> _].
    destruct b; simpl; [|done].
    by rewrite check_cons, Hc, IH.
  - intros Hcanon. revert out. induction changes as [|c changes IH]; intros out.
    { by intros [= <-]. }
    rewrite clamp_cons.
    destruct (checkImpl sc current_settings c CLAMP_ON_VIOLATION)
      as [[b c']|e] eqn:Hc; simpl; [|done].
    destruct (clamp sc current_settings changes) as [rest|e]; simpl; [|done].
    intros [= <-]. specialize (IH rest eq_refl).
    destruct b; simpl; [|done].
    rewrite clamp_cons, (checkImpl_clamp_again _ _ _ _ Hcanon Hc), IH. simpl.
    destruct (restates_current current_settings c') eqn:Hr; simpl.
    + by rewrite filter_cons_False by (by rewrite Hr).
    + by rewrite filter_cons_True by done.
Qed.

End Properties.

(** * The properties on the sample inputs *)

Lemma limits_canonical : canonical_bounds Sample.limits.
Proof.
  unfold canonical_bounds, Sample.limits. simpl.
  repeat apply map_Forall_insert_2; try apply map_Forall_empty;
    split; intros H; try discriminate H; split; reflexivity.
Qed.

Lemma five_to_ten_gates : gates_pass Sample.five_to_ten.
Proof. repeat split. Qed.

(** ** merge *)

Lemma merge_refine_per_field_witness :
  doesSettingsConstraintsReplacePrevious (access_control Sample.limits) = false
  ∧ (∃ r, constraints (merge Sample.limits Sample.overrides) !! "max_threads" = Some r
          ∧ min_value r = Sample.UInt64 2
          ∧ max_value r = Sample.UInt64 10
          ∧ is_const r = false)
  ∧ (∃ r, constraints (merge Sample.limits Sample.overrides) !! "max_memory_usage"
          = Some r
          ∧ is_const r = true)
  ∧ (∃ r, constraints (foldl merge Sample.limits [Sample.overrides; Sample.overrides])
            !! "profile" = Some r
          ∧ is_const r = true).
Proof.
  destruct (merge_refine_per_field Sample.limits Sample.overrides eq_refl)
    as (Hfield & _ & Hconst).
  split; [reflexivity|]. split; [|split].
  - destruct (Hfield "max_threads" Sample.at_least_two eq_refl)
      as (r & Hr & Hmin & Hmax & Hc).
    exists r. repeat split; assumption.
  - destruct (Hfield "max_memory_usage" Sample.at_least_two eq_refl)
      as (r & Hr & _ & _ & Hc).
    exists r. split; assumption.
  - apply (Hconst "profile" Sample.constant); reflexivity.
Defined.

Lemma merge_refine_changeable_in_readonly_witness :
  doesSettingsConstraintsReplacePrevious (access_control Sample.limits) = false
  ∧ changeable_in_readonly Sample.at_least_two = true
  ∧ (∃ r, constraints (merge Sample.limits Sample.overrides) !! "max_threads" = Some r
          ∧ changeable_in_readonly r = false)
  ∧ (∃ r, constraints (merge Sample.limits Sample.overrides) !! "log_comment" = Some r
          ∧ changeable_in_readonly r = false).
Proof.
  destruct (merge_refine_changeable_in_readonly Sample.limits Sample.overrides eq_refl)
    as (Hold & Hnew).
  split; [reflexivity|]. split; [reflexivity|]. split.
  - apply (Hold "max_threads" Sample.five_to_ten). reflexivity.
  - apply (Hnew "log_comment" Sample.at_least_two); reflexivity.
Defined.

(** ** getRange *)

Lemma getRange_resolution_witness :
  getRange Sample.limits (Sample.snapshot 0 false) "allow_ddl"
  = Range_forbidden
      "Cannot modify 'allow_ddl' setting when DDL queries are prohibited for the user"
      QUERY_IS_PROHIBITED
  ∧ getRange Sample.limits (Sample.snapshot 2 true) "readonly"
    = Range_forbidden "Cannot modify 'readonly' setting in readonly mode" READONLY
  ∧ getRange Sample.limits (Sample.snapshot 1 true) "max_threads"
    = Range_forbidden "Cannot modify 'max_threads' setting in readonly mode" READONLY
  ∧ getRange Sample.limits (Sample.snapshot 2 true) "log_comment" = Range_allowed
  ∧ getRange Sample.limits (Sample.snapshot 0 true) "max_threads" = Sample.five_to_ten.
Proof.
  split; [|split; [|split; [|split]]].
  - destruct (getRange_resolution Sample.limits (Sample.snapshot 0 false) "allow_ddl")
      as (Hddl & _).
    apply Hddl; reflexivity.
  - destruct (getRange_resolution Sample.limits (Sample.snapshot 2 true) "readonly")
      as (_ & Hreadonly & _).
    apply Hreadonly; reflexivity.
  - destruct (getRange_resolution Sample.limits (Sample.snapshot 1 true) "max_threads")
      as (_ & _ & Hother & _).
    destruct Hother as (Hone & _).
    + intros [_ H]. discriminate H.
    + intros [_ H]. discriminate H.
    + apply Hone; [reflexivity|].
      right. exists Sample.five_to_ten. split; reflexivity.
  - destruct (getRange_resolution Sample.limits (Sample.snapshot 2 true) "log_comment")
      as (_ & _ & Hother & _).
    destruct Hother as (_ & _ & Hnone & _).
    + intros [H _]. discriminate H.
    + intros [_ H]. discriminate H.
    + apply Hnone; [right|]; reflexivity.
  - destruct (getRange_resolution Sample.limits (Sample.snapshot 0 true) "max_threads")
      as (_ & _ & Hother & _).
    destruct Hother as (_ & _ & _ & Hsome).
    + intros [H _]. discriminate H.
    + intros [_ H]. discriminate H.
    + apply Hsome; [left|]; reflexivity.
Defined.

(** ** Range::check *)

Lemma Range_check_order_witness :
  gates_pass Sample.five_to_ten
  ∧ Range_check Sample.five_to_ten (Sample.threads 2) (Sample.UInt64 2)
                THROW_ON_VIOLATION
    = Raise (less_than_min "max_threads" (Sample.UInt64 5))
  ∧ Range_check Sample.five_to_ten (Sample.threads 2) (Sample.UInt64 2)
                CLAMP_ON_VIOLATION
    = Ok (true, Sample.threads 5)
  ∧ Range_check Sample.five_to_ten (Sample.threads 20) (Sample.UInt64 20)
                THROW_ON_VIOLATION
    = Raise (greater_than_max "max_threads" (Sample.UInt64 10))
  ∧ Range_check Sample.five_to_ten (Sample.threads 20) (Sample.UInt64 20)
                CLAMP_ON_VIOLATION
    = Ok (true, Sample.threads 10)
  ∧ Range_check Sample.five_to_ten (Sample.threads 7) (Sample.UInt64 7)
                CLAMP_ON_VIOLATION
    = Ok (true, Sample.threads 7)
  ∧ Range_check Sample.constant (Sample.threads 7) (Sample.UInt64 7)
                THROW_ON_VIOLATION
    = Raise (should_not_be_changed "max_threads").
Proof.
  split; [exact five_to_ten_gates|]. split; [|split; [|split; [|split; [|split]]]].
  - destruct (Range_check_order Sample.five_to_ten (Sample.threads 2) (Sample.UInt64 2))
      as (_ & _ & _ & Hbelow & _).
    apply Hbelow; [exact five_to_ten_gates|reflexivity..].
  - destruct (Range_check_order Sample.five_to_ten (Sample.threads 2) (Sample.UInt64 2))
      as (_ & _ & _ & _ & Hbelow & _).
    apply Hbelow; [exact five_to_ten_gates|reflexivity].
  - destruct (Range_check_order Sample.five_to_ten (Sample.threads 20) (Sample.UInt64 20))
      as (_ & _ & _ & _ & _ & Habove & _).
    apply Habove; [exact five_to_ten_gates|reflexivity..].
  - destruct (Range_check_order Sample.five_to_ten (Sample.threads 20) (Sample.UInt64 20))
      as (_ & _ & _ & _ & _ & _ & Habove & _).
    apply Habove; [exact five_to_ten_gates|reflexivity].
  - destruct (Range_check_order Sample.five_to_ten (Sample.threads 7) (Sample.UInt64 7))
      as (_ & _ & _ & _ & _ & _ & _ & Hinside & _).
    apply Hinside; [exact five_to_ten_gates|reflexivity..].
  - destruct (Range_check_order Sample.constant (Sample.threads 7) (Sample.UInt64 7))
      as (_ & Hconst & _).
    apply Hconst; reflexivity.
Defined.

(** With bounds 5 and 10 and a value that compares with neither, the
    below-minimum test matches and assigns 5, and the above-maximum test
    matches as well: the change is kept with the value 10. *)
Lemma clamp_below_min_ends_at_max :
  gates_pass Sample.five_to_ten
  ∧ below_min Sample.five_to_ten (Sample.Array []) = true
  ∧ Range_check Sample.five_to_ten Sample.threads_array (Sample.Array [])
                CLAMP_ON_VIOLATION
    = Ok (true, Sample.threads 10)
  ∧ Range_check Sample.five_to_ten Sample.threads_array (Sample.Array [])
                CLAMP_ON_VIOLATION
    ≠ Ok (true, set_value Sample.threads_array (min_value Sample.five_to_ten)).
Proof.
  split; [exact five_to_ten_gates|]. split; [reflexivity|]. split; [reflexivity|].
  intros H. discriminate H.
Qed.

Lemma inconsistent_range_like_const_witness :
  has_min Sample.ten_to_five = true
  ∧ has_max Sample.ten_to_five = true
  ∧ FieldVisitorAccurateLess (max_value Sample.ten_to_five)
                             (min_value Sample.ten_to_five) = Ok true
  ∧ Range_check Sample.ten_to_five (Sample.threads 7) (Sample.UInt64 7)
                CLAMP_ON_VIOLATION
    = Ok (false, Sample.threads 7)
  ∧ Range_check Sample.ten_to_five (Sample.threads 7) (Sample.UInt64 7)
                THROW_ON_VIOLATION
    = Raise (should_not_be_changed "max_threads").
Proof.
  destruct (inconsistent_range_like_const Sample.ten_to_five (Sample.threads 7)
              (Sample.UInt64 7) eq_refl eq_refl eq_refl) as (_ & Hclamp & Hthrow).
  split; [reflexivity|]. split; [reflexivity|]. split; [reflexivity|].
  split; [exact Hclamp|exact Hthrow].
Defined.

Lemma incomparable_bounds_witness :
  FieldVisitorAccurateLess (Sample.Array []) (min_value Sample.five_to_ten)
  = Raise (Sample.cannot_compare (Sample.Array []) (Sample.UInt64 5))
  ∧ Range_check Sample.five_to_ten Sample.threads_array (Sample.Array [])
                CLAMP_ON_VIOLATION
    = Ok (true, Sample.threads 10)
  ∧ Range_check Sample.five_to_ten Sample.threads_array (Sample.Array [])
                THROW_ON_VIOLATION
    = Raise (Sample.cannot_compare (Sample.Array []) (Sample.UInt64 5))
  ∧ Range_check Sample.five_to_array (Sample.threads 7) (Sample.UInt64 7)
                CLAMP_ON_VIOLATION
    = Ok (false, Sample.threads 7).
Proof.
  split; [reflexivity|]. split; [|split].
  - destruct (incomparable_bounds Sample.five_to_ten Sample.threads_array
                (Sample.Array [])
                (Sample.cannot_compare (Sample.Array []) (Sample.UInt64 5)))
      as (_ & _ & Hmin & _).
    apply Hmin; [exact five_to_ten_gates|reflexivity..].
  - destruct (incomparable_bounds Sample.five_to_ten Sample.threads_array
                (Sample.Array [])
                (Sample.cannot_compare (Sample.Array []) (Sample.UInt64 5)))
      as (_ & _ & Hmin & _).
    apply Hmin; [exact five_to_ten_gates|reflexivity..].
  - destruct (incomparable_bounds Sample.five_to_array (Sample.threads 7)
                (Sample.UInt64 7)
                (Sample.cannot_compare (Sample.Array []) (Sample.UInt64 5)))
      as (_ & Hbounds & _).
    apply Hbounds; reflexivity.
Defined.

(** Under [THROW_ON_VIOLATION] a value that does not compare with the
    minimum raises the exception of the comparison, with its own code, and
    not the below-minimum violation. *)
Lemma throw_incomparable_is_not_bound_violation :
  has_min Sample.five_to_ten = true
  ∧ FieldVisitorAccurateLess (Sample.Array []) (min_value Sample.five_to_ten)
    = Raise (Sample.cannot_compare (Sample.Array []) (Sample.UInt64 5))
  ∧ Range_check Sample.five_to_ten Sample.threads_array (Sample.Array [])
                THROW_ON_VIOLATION
    = Raise (mkException "Cannot compare Array with UInt64" Sample.BAD_TYPE_OF_FIELD)
  ∧ Range_check Sample.five_to_ten Sample.threads_array (Sample.Array [])
                THROW_ON_VIOLATION
    ≠ Raise (less_than_min "max_threads" (min_value Sample.five_to_ten)).
Proof.
  split; [reflexivity|]. split; [reflexivity|]. split; [reflexivity|].
  intros H. discriminate H.
Qed.

(** ** checkImpl and the batch forms *)

Lemma clamp_never_raises_witness :
  clamp Sample.limits (Sample.snapshot 0 true)
        [Sample.threads 2; Sample.misspelt; Sample.threads 7]
  = Ok (omap (kept_by Sample.limits (Sample.snapshot 0 true) CLAMP_ON_VIOLATION)
             [Sample.threads 2; Sample.misspelt; Sample.threads 7])
  ∧ checkImpl Sample.limits (Sample.snapshot 0 true) Sample.misspelt CLAMP_ON_VIOLATION
    = Ok (false, Sample.misspelt)
  ∧ checkImpl Sample.limits (Sample.snapshot 0 true)
              (mkSettingChange "max_memory_usage" (Sample.UInt64 1)) CLAMP_ON_VIOLATION
    = Ok (false, mkSettingChange "max_memory_usage" (Sample.UInt64 1))
  ∧ checkImpl Sample.limits (Sample.snapshot 0 true)
              (mkSettingChange "max_threads" (Sample.Str "many")) CLAMP_ON_VIOLATION
    = Ok (false, mkSettingChange "max_threads" (Sample.Str "many"))
  ∧ checkImpl Sample.limits (Sample.snapshot 0 true) Sample.switch_profile
              CLAMP_ON_VIOLATION
    = Ok (true, Sample.switch_profile).
Proof.
  destruct (clamp_never_raises Sample.limits (Sample.snapshot 0 true)
              [Sample.threads 2; Sample.misspelt; Sample.threads 7])
    as (Hlist & _ & Hdrop & Hprofile).
  split; [exact Hlist|]. split; [|split; [|split]].
  - apply Hdrop; [discriminate|].
    right; right; right; left. reflexivity.
  - apply Hdrop; [discriminate|].
    left. exists Sample.constant. split; reflexivity.
  - apply Hdrop; [discriminate|].
    right; right; right; right. eexists. reflexivity.
  - apply Hprofile. reflexivity.
Defined.

(** The table marks [profile] constant, and [clamp] keeps a change of the
    profile all the same. *)
Lemma clamp_keeps_constant_profile :
  constraints Sample.limits !! name Sample.switch_profile = Some Sample.constant
  ∧ is_const Sample.constant = true
  ∧ clamp Sample.limits (Sample.snapshot 0 true) [Sample.switch_profile]
    = Ok [Sample.switch_profile]
  ∧ clamp Sample.limits (Sample.snapshot 0 true) [Sample.switch_profile] ≠ Ok [].
Proof.
  split; [reflexivity|]. split; [reflexivity|]. split; [reflexivity|].
  intros H. discriminate H.
Qed.

Lemma check_batch_witness :
  is_noop (Sample.snapshot 0 true) (Sample.threads 5) = true
  ∧ check Sample.limits (Sample.snapshot 0 true) [Sample.threads 5; Sample.threads 7]
    = check Sample.limits (Sample.snapshot 0 true) [Sample.threads 7]
  ∧ checkImpl Sample.limits (Sample.snapshot 0 true) Sample.misspelt THROW_ON_VIOLATION
    = Raise (mkException "Unknown setting max_thread: Maybe you meant [max_threads]"
                         UNKNOWN_SETTING)
  ∧ checkImpl Sample.limits (Sample.snapshot 0 true) (Sample.threads 2)
              THROW_ON_VIOLATION
    = Raise (less_than_min "max_threads" (Sample.UInt64 5))
  ∧ check Sample.limits (Sample.snapshot 0 true)
          ([Sample.threads 7] ++ Sample.threads 2 :: [Sample.threads 8])
    = Raise (less_than_min "max_threads" (Sample.UInt64 5)).
Proof.
  destruct (check_batch Sample.limits (Sample.snapshot 0 true))
    as (_ & Hnoop & Hname & Hrange & Habort).
  assert (checkImpl Sample.limits (Sample.snapshot 0 true) (Sample.threads 2)
                    THROW_ON_VIOLATION
          = Raise (less_than_min "max_threads" (Sample.UInt64 5))) as Hviolation.
  { apply (Hrange (Sample.threads 2) (Sample.UInt64 2)); [discriminate|reflexivity..]. }
  split; [reflexivity|]. split; [|split; [|split]].
  - apply Hnoop; reflexivity.
  - apply (Hname Sample.misspelt (Sample.unknown_setting "max_thread"));
      [discriminate|reflexivity].
  - exact Hviolation.
  - apply (Habort [Sample.threads 7] [Sample.threads 7]); [reflexivity|].
    exact Hviolation.
Defined.

(** A name the allow-list does not know is not dropped by the batch
    [check]: the call raises. *)
Lemma check_raises_on_unknown_name :
  isSettingNameAllowed (access_control Sample.limits) (name Sample.misspelt) = false
  ∧ check Sample.limits (Sample.snapshot 0 true) [Sample.threads 7; Sample.misspelt]
    = Raise (mkException "Unknown setting max_thread: Maybe you meant [max_threads]"
                         UNKNOWN_SETTING)
  ∧ check Sample.limits (Sample.snapshot 0 true) [Sample.threads 7; Sample.misspelt]
    ≠ Ok [Sample.threads 7].
Proof.
  split; [reflexivity|]. split; [reflexivity|]. intros H. discriminate H.
Qed.

Lemma unchanged_value_is_noop_witness :
  tryGet (Sample.snapshot 0 true) (name (Sample.threads 5)) = Some (Sample.UInt64 5)
  ∧ value (Sample.threads 5) = Sample.UInt64 5
  ∧ checkImpl Sample.limits (Sample.snapshot 0 true) (Sample.threads 5)
              THROW_ON_VIOLATION
    = Ok (false, Sample.threads 5)
  ∧ checkImpl Sample.limits (Sample.snapshot 0 true) (Sample.threads 5)
              CLAMP_ON_VIOLATION
    = Ok (false, Sample.threads 5).
Proof.
  destruct (unchanged_value_is_noop Sample.limits (Sample.snapshot 0 true)
              (Sample.threads 5) (Sample.UInt64 5) eq_refl (or_introl eq_refl))
    as (_ & Hnoop & _).
  split; [reflexivity|]. split; [reflexivity|]. split.
  - apply (Hnoop ltac:(discriminate) THROW_ON_VIOLATION eq_refl).
  - apply (Hnoop ltac:(discriminate) CLAMP_ON_VIOLATION eq_refl).
Defined.

(** A change of the profile to the current profile is kept by [checkImpl]
    and stays in the list of both batch forms. *)
Lemma same_profile_is_kept :
  tryGet (Sample.snapshot 0 true) (name Sample.same_profile)
  = Some (value Sample.same_profile)
  ∧ checkImpl Sample.limits (Sample.snapshot 0 true) Sample.same_profile
              CLAMP_ON_VIOLATION
    = Ok (true, Sample.same_profile)
  ∧ clamp Sample.limits (Sample.snapshot 0 true) [Sample.same_profile]
    = Ok [Sample.same_profile]
  ∧ check Sample.limits (Sample.snapshot 0 true) [Sample.same_profile]
    = Ok [Sample.same_profile]
  ∧ clamp Sample.limits (Sample.snapshot 0 true) [Sample.same_profile] ≠ Ok [].
Proof.
  split; [reflexivity|]. split; [reflexivity|]. split; [reflexivity|].
  split; [reflexivity|]. intros H. discriminate H.
Qed.

Lemma batch_again_witness :
  canonical_bounds Sample.limits
  ∧ clamp Sample.limits (Sample.snapshot 0 true)
          [Sample.threads 2; Sample.threads 20; Sample.threads 7]
    = Ok [Sample.threads 5; Sample.threads 10; Sample.threads 7]
  ∧ clamp Sample.limits (Sample.snapshot 0 true)
          [Sample.threads 5; Sample.threads 10; Sample.threads 7]
    = Ok [Sample.threads 10; Sample.threads 7]
  ∧ check Sample.limits (Sample.snapshot 0 true) [Sample.threads 5; Sample.threads 7]
    = Ok [Sample.threads 7]
  ∧ check Sample.limits (Sample.snapshot 0 true) [Sample.threads 7]
    = Ok [Sample.threads 7].
Proof.
  split; [exact limits_canonical|]. split; [reflexivity|]. split; [|split].
  - destruct (batch_again Sample.limits (Sample.snapshot 0 true)
                [Sample.threads 2; Sample.threads 20; Sample.threads 7]
                [Sample.threads 5; Sample.threads 10; Sample.threads 7])
      as (_ & Hclamp).
    apply (Hclamp limits_canonical eq_refl).
  - reflexivity.
  - destruct (batch_again Sample.limits (Sample.snapshot 0 true)
                [Sample.threads 5; Sample.threads 7] [Sample.threads 7])
      as (Hcheck & _).
    apply (Hcheck eq_refl).
Defined.

(** With the current value 5 and the bounds 5 and 10, [clamp] moves a
    proposed 2 to 5, and run again on that output drops it. *)
Lemma clamp_twice_drops :
  clamp Sample.limits (Sample.snapshot 0 true) [Sample.threads 2]
  = Ok [Sample.threads 5]
  ∧ clamp Sample.limits (Sample.snapshot 0 true) [Sample.threads 5] = Ok []
  ∧ clamp Sample.limits (Sample.snapshot 0 true) [Sample.threads 5]
    ≠ Ok [Sample.threads 5].
Proof.
  split; [reflexivity|]. split; [reflexivity|]. intros H. discriminate H.
Qed.

(** * Further properties of the engine *)

Section Further.
Context `{C : Collaborators}.
Implicit Types (r constraint other_constraint : Range).
Implicit Types (change : SettingChange) (changes : list SettingChange).
Implicit Types (sc this other : SettingsConstraints) (current_settings : Settings).
Implicit Types (reaction : ReactionOnViolation) (setting_name : string).

(** ** The setters *)

Lemma entry_insert (m : gmap string Range) (n n' : string) (x : Range) :
  entry (<[n := x]> m) n' = if decide (n = n') then x else entry m n'.
Proof.
  unfold entry. destruct (decide (n = n')) as [->|Hne].
  - by rewrite lookup_insert_eq.
  - by rewrite lookup_insert_ne.
Qed.

Lemma setIsConst_upsert sc setting_name (b : bool) :
  setIsConst sc setting_name b = upsert (λ r, with_is_const r b) sc setting_name.
Proof. reflexivity. Qed.

Lemma setChangableInReadonly_upsert sc setting_name (b : bool) :
  setChangableInReadonly sc setting_name b
  = upsert (λ r, with_changeable_in_readonly r b) sc setting_name.
Proof. reflexivity. Qed.

Lemma setMinValue_upsert sc setting_name (x : Field) :
  setMinValue sc setting_name x
  = (c ← castValueUtil setting_name x;
     Ok (upsert (λ r, with_min_value r c) sc setting_name)).
Proof. reflexivity. Qed.

Lemma setMaxValue_upsert sc setting_name (x : Field) :
  setMaxValue sc setting_name x
  = (c ← castValueUtil setting_name x;
     Ok (upsert (λ r, with_max_value r c) sc setting_name)).
Proof. reflexivity. Qed.





(** ** getRange and get *)

(** The two ways [getRange] answers: a forbidden range, without bounds,
    when the mode forbids the setting, and otherwise the entry of the
    table, default-constructed when the name has none. *)
Lemma getRange_cases sc current_settings setting_name :
  (mode_forbids sc current_settings setting_name
   ∧ ∃ (msg : string) (code_ : Z),
       msg ≠ ""
       ∧ getRange sc current_settings setting_name = Range_forbidden msg code_)
  ∨ (¬ mode_forbids sc current_settings setting_name
     ∧ getRange sc current_settings setting_name
       = entry (constraints sc) setting_name).
Proof.
  unfold getRange, mode_forbids, entry, Range_allowed.
  destruct (negb (allow_ddl current_settings)
            && bool_decide (setting_name = "allow_ddl")) eqn:E1.
  { apply andb_true_iff in E1 as [Hd Hn].
    apply negb_true_iff in Hd. apply bool_decide_eq_true in Hn.
    left. split; [by left|]. eexists _, _. split; [|reflexivity]. done. }
  assert (¬ (allow_ddl current_settings = false ∧ setting_name = "allow_ddl")) as N1.
  { intros [Hd Hn]. by rewrite Hd, bool_decide_eq_true_2 in E1. }
  destruct ((1 <? readonly current_settings)%N
            && bool_decide (setting_name = "readonly")) eqn:E2.
  { apply andb_true_iff in E2 as [Hro Hn].
    apply N.ltb_lt in Hro. apply bool_decide_eq_true in Hn.
    left. split; [by right; left|]. eexists _, _. split; [|reflexivity]. done. }
  assert (¬ ((1 < readonly current_settings)%N ∧ setting_name = "readonly")) as N2.
  { intros [Hro Hn]. apply N.ltb_lt in Hro.
    by rewrite Hro, bool_decide_eq_true_2 in E2. }
  destruct (readonly current_settings =? 1)%N eqn:E3.
  - apply N.eqb_eq in E3.
    destruct (constraints sc !! setting_name) as [r|] eqn:Hr.
    + destruct (changeable_in_readonly r) eqn:Hc; simpl.
      * right. split; [|done].
        intros [?|[?|[_ [?|(r' & Hr' & Hc')]]]]; [done|done|done|congruence].
      * left. split; [right; right; eauto|].
        eexists _, _. split; [|reflexivity]. done.
    + left. split; [right; right; eauto|].
      eexists _, _. split; [|reflexivity]. done.
  - apply N.eqb_neq in E3. right. split; [|done].
    intros [?|[?|[? _]]]; done.
Qed.

Lemma is_forbidden_Range_forbidden (msg : string) (code_ : Z) :
  msg ≠ "" → is_forbidden (Range_forbidden msg code_) = true.
Proof.
  intros Hmsg. unfold is_forbidden. simpl.
  apply negb_true_iff. by apply String.eqb_neq.
Qed.


(** ** Two invariants of the table *)

Lemma entry_no_explanation sc setting_name :
  no_explanations sc → explain (entry (constraints sc) setting_name) = "".
Proof.
  intros Hinv. unfold entry.
  destruct (constraints sc !! setting_name) as [r|] eqn:Hr; [|done].
  apply (Hinv _ _ Hr).
Qed.

Lemma upsert_no_explanations (f : Range → Range) sc setting_name :
  (∀ r, explain (f r) = explain r) →
  no_explanations sc → no_explanations (upsert f sc setting_name).
Proof.
  intros Hf Hinv. unfold no_explanations, upsert. simpl.
  apply map_Forall_insert_2; [|done].
  rewrite Hf. by apply entry_no_explanation.
Qed.

Lemma refine_explain constraint other_constraint :
  explain (refine constraint other_constraint) = explain constraint.
Proof.
  unfold refine.
  destruct (isNull (min_value other_constraint)),
    (isNull (max_value other_constraint)), (is_const other_constraint); reflexivity.
Qed.

Lemma merge_lookup this other setting_name :
  constraints (merge this other) !! setting_name =
  match constraints other !! setting_name with
  | Some other_constraint =>
      Some (if doesSettingsConstraintsReplacePrevious (access_control this)
            then other_constraint
            else refine (entry (constraints this) setting_name) other_constraint)
  | None => constraints this !! setting_name
  end.
Proof.
  unfold merge.
  destruct (doesSettingsConstraintsReplacePrevious (access_control this)); simpl.
  - apply merge_replace_lookup.
  - apply merge_refine_lookup.
Qed.

(** X3: no stored entry ever carries an explanation.  The empty table
    has none, and the four setters and [merge] (of a table that has none,
    under either policy) store none: forbidden ranges only come out of
    [getRange]. *)
Theorem no_explanations_kept sc setting_name :
  no_explanations (clear sc)
  ∧ (no_explanations sc →
     (∀ b : bool, no_explanations (setIsConst sc setting_name b))
     ∧ (∀ b : bool, no_explanations (setChangableInReadonly sc setting_name b))
     ∧ (∀ (x : Field) sc',
          setMinValue sc setting_name x = Ok sc' → no_explanations sc')
     ∧ (∀ (x : Field) sc',
          setMaxValue sc setting_name x = Ok sc' → no_explanations sc')
     ∧ (∀ other, no_explanations other → no_explanations (merge sc other))).
Proof.
  split; [apply map_Forall_empty|]. intros Hinv.
  split; [|split; [|split; [|split]]].
  - intros b. rewrite setIsConst_upsert. by apply upsert_no_explanations.
  - intros b. rewrite setChangableInReadonly_upsert.
    by apply upsert_no_explanations.
  - intros x sc'. rewrite setMinValue_upsert.
    destruct (castValueUtil setting_name x) as [c|e]; simpl; [|done].
    intros [= <-]. by apply upsert_no_explanations.
  - intros x sc'. rewrite setMaxValue_upsert.
    destruct (castValueUtil setting_name x) as [c|e]; simpl; [|done].
    intros [= <-]. by apply upsert_no_explanations.
  - intros other Hother k r. rewrite merge_lookup.
    destruct (constraints other !! k) as [oc|] eqn:Ho; [|apply Hinv].
    intros [= <-].
    destruct (doesSettingsConstraintsReplacePrevious (access_control sc)).
    + apply (Hother _ _ Ho).
    + rewrite refine_explain. by apply entry_no_explanation.
Qed.

(** X4: with no explanation stored, the effective range of a setting
    is forbidden exactly when the mode forbids it: DDL is prohibited and
    the setting is [allow_ddl]; or the readonly level is above 1 and the
    setting is [readonly]; or the level is 1 and the setting has no entry
    or one that is not changeable in readonly mode. *)
Theorem forbidden_iff_mode sc current_settings setting_name :
  no_explanations sc →
  is_forbidden (getRange sc current_settings setting_name) = true
  ↔ mode_forbids sc current_settings setting_name.
Proof.
  intros Hinv.
  destruct (getRange_cases sc current_settings setting_name)
    as [(Hmode & msg & code_ & Hmsg & ->)|[Hnot ->]].
  - split; [done|]. intros _. by apply is_forbidden_Range_forbidden.
  - split; [|done]. intros Hf.
    apply not_false_iff_true in Hf. exfalso. apply Hf.
    apply is_forbidden_false. by apply entry_no_explanation.
Qed.

Lemma entry_canonical sc setting_name :
  canonical_bounds sc →
  (has_min (entry (constraints sc) setting_name) = true →
   canonical_bound setting_name (min_value (entry (constraints sc) setting_name)))
  ∧ (has_max (entry (constraints sc) setting_name) = true →
     canonical_bound setting_name (max_value (entry (constraints sc) setting_name))).
Proof.
  intros Hinv. unfold entry.
  destruct (constraints sc !! setting_name) as [r|] eqn:Hr; simpl.
  - apply (Hinv _ _ Hr).
  - unfold has_min, has_max. simpl. rewrite isNull_default. by split.
Qed.

Lemma upsert_canonical (f : Range → Range) sc setting_name :
  canonical_bounds sc →
  (has_min (f (entry (constraints sc) setting_name)) = true →
   canonical_bound setting_name (min_value (f (entry (constraints sc) setting_name)))) →
  (has_max (f (entry (constraints sc) setting_name)) = true →
   canonical_bound setting_name (max_value (f (entry (constraints sc) setting_name)))) →
  canonical_bounds (upsert f sc setting_name).
Proof.
  intros Hinv Hmin Hmax. unfold canonical_bounds, upsert. simpl.
  by apply map_Forall_insert_2.
Qed.

(** X5: the bounds of the table stay canonical.  The empty table has
    canonical bounds; the flag setters keep them; the bound setters keep
    them when the cast is idempotent and its results do not order below
    themselves; and [merge], under either policy, keeps them when the
    other table has them. *)
Theorem canonical_bounds_kept sc setting_name :
  canonical_bounds (clear sc)
  ∧ (canonical_bounds sc →
     (∀ b : bool, canonical_bounds (setIsConst sc setting_name b))
     ∧ (∀ b : bool, canonical_bounds (setChangableInReadonly sc setting_name b))
     ∧ (cast_canonical →
        ∀ (x : Field) sc',
          setMinValue sc setting_name x = Ok sc' → canonical_bounds sc')
     ∧ (cast_canonical →
        ∀ (x : Field) sc',
          setMaxValue sc setting_name x = Ok sc' → canonical_bounds sc')
     ∧ (∀ other, canonical_bounds other → canonical_bounds (merge sc other))).
Proof.
  split; [apply map_Forall_empty|]. intros Hinv.
  pose proof (entry_canonical sc setting_name Hinv) as [Hemin Hemax].
  split; [|split; [|split; [|split]]].
  - intros b. rewrite setIsConst_upsert. by apply upsert_canonical.
  - intros b. rewrite setChangableInReadonly_upsert. by apply upsert_canonical.
  - intros Hcast x sc'. rewrite setMinValue_upsert.
    destruct (castValueUtil setting_name x) as [c|e] eqn:Hc; simpl; [|done].
    intros [= <-]. apply upsert_canonical; [done| |done].
    intros _. simpl. by apply (Hcast _ x).
  - intros Hcast x sc'. rewrite setMaxValue_upsert.
    destruct (castValueUtil setting_name x) as [c|e] eqn:Hc; simpl; [|done].
    intros [= <-]. apply upsert_canonical; [done|done|].
    intros _. simpl. by apply (Hcast _ x).
  - intros other Hother k r. rewrite merge_lookup.
    destruct (constraints other !! k) as [oc|] eqn:Ho; [|apply Hinv].
    intros [= <-]. pose proof (Hother _ _ Ho) as [Homin Homax].
    destruct (doesSettingsConstraintsReplacePrevious (access_control sc)); [done|].
    pose proof (entry_canonical sc k Hinv) as [Hkmin Hkmax].
    unfold has_min, has_max in *.
    rewrite refine_min_value, refine_max_value.
    split.
    + destruct (isNull (min_value oc)); [done|]. intros _. by apply Homin.
    + destruct (isNull (max_value oc)); [done|]. intros _. by apply Homax.
Qed.

(** ** merge, continued *)

Lemma merge_eq this (m1 m2 : SettingsConstraints) :
  access_control m1 = access_control m2 →
  (∀ k, constraints m1 !! k = constraints m2 !! k) →
  m1 = m2.
Proof.
  destruct m1 as [a1 c1], m2 as [a2 c2]. simpl. intros -> Hk.
  f_equal. by apply map_eq.
Qed.

Lemma merge_entry this other setting_name :
  entry (constraints (merge this other)) setting_name =
  match constraints other !! setting_name with
  | Some other_constraint =>
      if doesSettingsConstraintsReplacePrevious (access_control this)
      then other_constraint
      else refine (entry (constraints this) setting_name) other_constraint
  | None => entry (constraints this) setting_name
  end.
Proof.
  unfold entry at 1. rewrite merge_lookup.
  by destruct (constraints other !! setting_name).
Qed.

Lemma refine_idempotent constraint other_constraint :
  refine (refine constraint other_constraint) other_constraint
  = refine constraint other_constraint.
Proof.
  unfold refine.
  destruct (isNull (min_value other_constraint)),
    (isNull (max_value other_constraint)), (is_const other_constraint); reflexivity.
Qed.

Lemma Range_eq r1 r2 :
  is_const r1 = is_const r2 →
  changeable_in_readonly r1 = changeable_in_readonly r2 →
  min_value r1 = min_value r2 →
  max_value r1 = max_value r2 →
  explain r1 = explain r2 →
  range_code r1 = range_code r2 →
  r1 = r2.
Proof. destruct r1, r2; simpl; congruence. Qed.

Lemma refine_range_code constraint other_constraint :
  range_code (refine constraint other_constraint) = range_code constraint.
Proof.
  unfold refine.
  destruct (isNull (min_value other_constraint)),
    (isNull (max_value other_constraint)), (is_const other_constraint); reflexivity.
Qed.

Lemma refine_assoc r (b c : Range) :
  refine (refine r b) c = refine r (refine b c).
Proof.
  apply Range_eq;
    rewrite ?refine_is_const, ?refine_changeable_in_readonly, ?refine_min_value,
      ?refine_max_value, ?refine_explain, ?refine_range_code; try done.
  - by rewrite orb_assoc.
  - destruct (isNull (min_value c)) eqn:Hc; [done|by rewrite Hc].
  - destruct (isNull (max_value c)) eqn:Hc; [done|by rewrite Hc].
Qed.

Lemma refine_default_absorbed r (c : Range) :
  refine r (refine Range_default c) = refine r c.
Proof.
  apply Range_eq;
    rewrite ?refine_is_const, ?refine_changeable_in_readonly, ?refine_min_value,
      ?refine_max_value, ?refine_explain, ?refine_range_code; try done.
  - simpl.
    destruct (isNull (min_value c)) eqn:Hc; [by rewrite isNull_default|by rewrite Hc].
  - simpl.
    destruct (isNull (max_value c)) eqn:Hc; [by rewrite isNull_default|by rewrite Hc].
Qed.

(** X6: [merge] under the replace policy.  Every entry of the other
    table overwrites the entry of this table with all its fields, the two
    flags included (so a constant setting can become changeable again),
    and the names the other table does not mention are untouched. *)
Theorem merge_replace_overwrites this other setting_name :
  doesSettingsConstraintsReplacePrevious (access_control this) = true →
  (∀ other_constraint,
     constraints other !! setting_name = Some other_constraint →
     constraints (merge this other) !! setting_name = Some other_constraint)
  ∧ (constraints other !! setting_name = None →
     constraints (merge this other) !! setting_name
     = constraints this !! setting_name).
Proof.
  intros Hp. rewrite merge_lookup, Hp.
  split; [by intros oc ->|by intros ->].
Qed.

(** X7: merging the same table a second time changes nothing, under
    either policy, and merging an empty table changes nothing. *)
Theorem merge_idempotent this other :
  merge (merge this other) other = merge this other
  ∧ merge this (clear other) = this.
Proof.
  split.
  - apply (merge_eq this); [by rewrite !merge_access_control|].
    intros k. rewrite (merge_lookup (merge this other)), merge_access_control.
    rewrite merge_entry.
    rewrite (merge_lookup this other).
    destruct (constraints other !! k) as [oc|]; [|done].
    destruct (doesSettingsConstraintsReplacePrevious (access_control this)); [done|].
    by rewrite refine_idempotent.
  - apply (merge_eq this); [by rewrite merge_access_control|].
    intros k. rewrite merge_lookup. simpl. by rewrite lookup_empty.
Qed.

(** X8: merges associate when the two tables merged into share the
    policy: merging [b] and then [c] into [a] gives the table of merging
    into [a] the result of merging [c] into [b]. *)
Theorem merge_assoc (a b c : SettingsConstraints) :
  doesSettingsConstraintsReplacePrevious (access_control a)
  = doesSettingsConstraintsReplacePrevious (access_control b) →
  merge (merge a b) c = merge a (merge b c).
Proof.
  intros Hp. apply (merge_eq a); [by rewrite !merge_access_control|].
  intros k.
  rewrite (merge_lookup (merge a b) c), (merge_lookup a (merge b c)).
  rewrite merge_access_control, merge_entry, (merge_lookup b c), (merge_lookup a b).
  rewrite <- Hp.
  destruct (doesSettingsConstraintsReplacePrevious (access_control a));
    destruct (constraints c !! k) as [cc|];
    destruct (constraints b !! k) as [bb|] eqn:Hb; try done.
  - replace (entry (constraints b) k) with bb
      by (unfold entry; by rewrite Hb).
    by rewrite refine_assoc.
  - replace (entry (constraints b) k) with Range_default
      by (unfold entry; by rewrite Hb).
    by rewrite refine_default_absorbed.
Qed.

(** ** checkImpl, continued *)

(** A change that is not of the profile, whose name passes the allow-list,
    whose value casts and is not the current one, is decided by the
    effective range. *)
Lemma checkImpl_reaches_range sc current_settings change reaction (new_value : Field) :
  name change ≠ "profile" →
  name_allowed sc current_settings (name change) reaction = Ok true →
  value_unchanged current_settings change = false →
  castValueUtil (name change) (value change) = Ok new_value →
  checkImpl sc current_settings change reaction
  = Range_check (getRange sc current_settings (name change))
                change new_value reaction.
Proof.
  intros Hn Hal Hu Hcast. unfold checkImpl, cast_value.
  rewrite bool_decide_eq_false_2, Hal by done. simpl.
  unfold value_unchanged in Hu. rewrite Hcast in *.
  destruct (tryGet current_settings (name change)) as [cur|].
  - apply orb_false_iff in Hu as [-> Hv].
    destruct reaction; simpl; by rewrite Hv.
  - by destruct reaction.
Qed.

Lemma Range_check_Range_forbidden change (new_value : Field) (msg : string) (code_ : Z) :
  msg ≠ "" →
  Range_check (Range_forbidden msg code_) change new_value THROW_ON_VIOLATION
  = Raise (mkException msg code_)
  ∧ Range_check (Range_forbidden msg code_) change new_value CLAMP_ON_VIOLATION
    = Ok (false, change).
Proof.
  intros Hmsg. rewrite !Range_check_forbidden
    by (by apply is_forbidden_Range_forbidden).
  done.
Qed.

(** X9: a write the mode forbids.  For a change that reaches the range
    (not the profile, an allowed name, a value that casts and differs from
    the current one), [THROW_ON_VIOLATION] raises: "DDL prohibited" with
    [QUERY_IS_PROHIBITED] for [allow_ddl] when DDL is off; otherwise
    [READONLY] for [readonly] at a level above 1 and for any setting that
    is not changeable at level 1.  [CLAMP_ON_VIOLATION] drops the change
    untouched in each of these cases. *)
Theorem mode_forbids_write sc current_settings change (new_value : Field) :
  name change ≠ "profile" →
  checkSettingNameIsAllowed (access_control sc) (name change) = None →
  isSettingNameAllowed (access_control sc) (name change) = true →
  value_unchanged current_settings change = false →
  castValueUtil (name change) (value change) = Ok new_value →
  (allow_ddl current_settings = false → name change = "allow_ddl" →
   checkImpl sc current_settings change THROW_ON_VIOLATION
   = Raise (mkException
              "Cannot modify 'allow_ddl' setting when DDL queries are prohibited for the user"
              QUERY_IS_PROHIBITED)
   ∧ checkImpl sc current_settings change CLAMP_ON_VIOLATION = Ok (false, change))
  ∧ ((1 < readonly current_settings)%N → name change = "readonly" →
     checkImpl sc current_settings change THROW_ON_VIOLATION
     = Raise (mkException "Cannot modify 'readonly' setting in readonly mode" READONLY)
     ∧ checkImpl sc current_settings change CLAMP_ON_VIOLATION = Ok (false, change))
  ∧ (readonly current_settings = 1%N →
     ¬ (allow_ddl current_settings = false ∧ name change = "allow_ddl") →
     (constraints sc !! name change = None
      ∨ ∃ r, constraints sc !! name change = Some r
             ∧ changeable_in_readonly r = false) →
     checkImpl sc current_settings change THROW_ON_VIOLATION
     = Raise (mkException
                ("Cannot modify '" +:+ name change +:+ "' setting in readonly mode")
                READONLY)
     ∧ checkImpl sc current_settings change CLAMP_ON_VIOLATION = Ok (false, change)).
Proof.
  intros Hn Hcheck Hallowed Hu Hcast.
  assert (∀ reaction,
            checkImpl sc current_settings change reaction
            = Range_check (getRange sc current_settings (name change))
                          change new_value reaction) as Hreach.
  { intros reaction. apply checkImpl_reaches_range; try done.
    unfold name_allowed. destruct reaction; by rewrite ?Hcheck, ?Hallowed. }
  rewrite !Hreach. split; [|split].
  - intros Hddl Hname. unfold getRange. rewrite Hddl, Hname. simpl.
    by apply Range_check_Range_forbidden.
  - intros Hro Hname. unfold getRange. rewrite Hname. simpl.
    rewrite andb_false_r. apply N.ltb_lt in Hro. rewrite Hro. simpl.
    by apply Range_check_Range_forbidden.
  - intros Hro Hddl Hentry. unfold getRange.
    assert (negb (allow_ddl current_settings)
            && bool_decide (name change = "allow_ddl") = false) as ->.
    { apply andb_false_iff. destruct (allow_ddl current_settings); [by left|].
      right. apply bool_decide_eq_false_2. intros ?. by apply Hddl. }
    rewrite Hro. simpl.
    destruct Hentry as [->|(r & -> & ->)]; simpl;
      by apply Range_check_Range_forbidden.
Qed.

Lemma Range_check_unrestricted r change (new_value : Field) reaction :
  is_forbidden r = false → is_const r = false →
  has_min r = false → has_max r = false →
  Range_check r change new_value reaction = Ok (true, change).
Proof.
  intros Hf Hc Hmin Hmax. unfold Range_check.
  unfold is_forbidden, has_min, has_max in *.
  by rewrite Hf, Hc, Hmin, Hmax.
Qed.

(** X10: a setting without constraint.  When the mode does not forbid
    the setting and the table has no entry for it, a change that reaches
    the range is accepted under both reactions, and kept with the value as
    proposed (not the cast one). *)
Theorem unconstrained_accepted sc current_settings change (new_value : Field) reaction :
  name change ≠ "profile" →
  name_allowed sc current_settings (name change) reaction = Ok true →
  value_unchanged current_settings change = false →
  castValueUtil (name change) (value change) = Ok new_value →
  ¬ mode_forbids sc current_settings (name change) →
  constraints sc !! name change = None →
  checkImpl sc current_settings change reaction = Ok (true, change).
Proof.
  intros Hn Hal Hu Hcast Hmode Hnone.
  rewrite (checkImpl_reaches_range _ _ _ _ new_value) by done.
  destruct (getRange_cases sc current_settings (name change))
    as [[? _]|[_ ->]]; [done|].
  unfold entry. rewrite Hnone. simpl.
  apply Range_check_unrestricted; try done;
    unfold has_min, has_max; simpl; by rewrite isNull_default.
Qed.

(** X11: a setting made constant.  After [setIsConst] with [true], in
    a mode that does not forbid the setting and with no explanation
    stored, a change of the setting that reaches the range raises "should
    not be changed" under [THROW_ON_VIOLATION] and is dropped untouched
    under [CLAMP_ON_VIOLATION], whatever bounds the entry has and whatever
    value is proposed. *)
Theorem constant_rejected sc current_settings change (new_value : Field) :
  no_explanations sc →
  name change ≠ "profile" →
  checkSettingNameIsAllowed (access_control sc) (name change) = None →
  isSettingNameAllowed (access_control sc) (name change) = true →
  value_unchanged current_settings change = false →
  castValueUtil (name change) (value change) = Ok new_value →
  ¬ mode_forbids (setIsConst sc (name change) true) current_settings (name change) →
  checkImpl (setIsConst sc (name change) true) current_settings change
            THROW_ON_VIOLATION
  = Raise (should_not_be_changed (name change))
  ∧ checkImpl (setIsConst sc (name change) true) current_settings change
              CLAMP_ON_VIOLATION
    = Ok (false, change).
Proof.
  intros Hinv Hn Hcheck Hallowed Hu Hcast Hmode.
  assert (∀ reaction,
            checkImpl (setIsConst sc (name change) true) current_settings change
                      reaction
            = Range_check (getRange (setIsConst sc (name change) true)
                                    current_settings (name change))
                          change new_value reaction) as Hreach.
  { intros reaction. apply checkImpl_reaches_range; try done.
    unfold name_allowed. simpl. destruct reaction; by rewrite ?Hcheck, ?Hallowed. }
  rewrite !Hreach.
  destruct (getRange_cases (setIsConst sc (name change) true) current_settings
              (name change)) as [[? _]|[_ ->]]; [done|].
  rewrite setIsConst_upsert. unfold upsert. simpl.
  rewrite entry_insert, decide_True by done.
  rewrite !Range_check_const; try done;
    apply is_forbidden_false; simpl; by apply entry_no_explanation.
Qed.

(** ** The forms that only check *)

(** X12: the three checking forms agree.  The form over a constant
    list raises exactly when the filtering form raises, with the same
    exception (that of the first change that raises), and returns
    otherwise; the form for one change is the list form on that change. *)
Theorem check_const_agrees sc current_settings changes :
  check_const sc current_settings changes
  = (_ ← check sc current_settings changes; Ok tt)
  ∧ ∀ change,
      check_one sc current_settings change
      = check_const sc current_settings [change].
Proof.
  split.
  - induction changes as [|c changes IH]; [done|].
    rewrite check_cons. simpl. unfold check_one. rewrite IH.
    destruct (checkImpl sc current_settings c THROW_ON_VIOLATION) as [[b c']|e];
      simpl; [|done].
    by destruct (check sc current_settings changes).
  - intros change. simpl. unfold check_one.
    by destruct (checkImpl sc current_settings change THROW_ON_VIOLATION).
Qed.

(** ** The batch forms, continued *)

Lemma checkImpl_clamp_name sc current_settings change (b : bool) change' :
  checkImpl sc current_settings change CLAMP_ON_VIOLATION = Ok (b, change') →
  name change' = name change.
Proof.
  destruct (decide (name change = "profile")) as [Hn|Hn].
  { rewrite checkImpl_profile by done. by intros [= <- <-]. }
  rewrite checkImpl_clamp by done.
  destruct (negb (isSettingNameAllowed _ _)); [by intros [= <- <-]|].
  destruct (castValueUtil (name change) (value change)) as [v|e];
    [|by intros [= <- <-]].
  destruct (value_unchanged current_settings change); [by intros [= <- <-]|].
  rewrite Range_check_clamp.
  destruct (is_forbidden _ || is_const _ || inconsistent_bounds _);
    [by intros [= <- <-]|].
  destruct (above_max _ v); [by intros [= <- <-]|].
  destruct (below_min _ v); by intros [= <- <-].
Qed.

(** X13: the batch forms never add, reorder or rename a change.  The
    names of the list [clamp] returns are a sublist of the names it was
    given, and the list [check] returns is a sublist of the list it was
    given. *)
Theorem batch_keeps_names sc current_settings changes (out : list SettingChange) :
  (clamp sc current_settings changes = Ok out →
   (name <$> out) `sublist_of` (name <$> changes)
   ∧ (List.length out ≤ List.length changes)%nat)
  ∧ (check sc current_settings changes = Ok out →
     out `sublist_of` changes).
Proof.
  split.
  - intros Hclamp.
    assert ((name <$> out) `sublist_of` (name <$> changes)) as Hsub.
    { revert out Hclamp. induction changes as [|c changes IH]; intros out.
      { intros [= <-]. constructor. }
      rewrite clamp_cons.
      destruct (checkImpl sc current_settings c CLAMP_ON_VIOLATION)
        as [[b c']|e] eqn:Hc; simpl; [|done].
      destruct (clamp sc current_settings changes) as [rest|e]; simpl; [|done].
      intros [= <-]. specialize (IH rest eq_refl).
      apply checkImpl_clamp_name in Hc.
      destruct b; simpl.
      - rewrite Hc. by apply sublist_skip.
      - by apply sublist_cons. }
    split; [done|]. apply sublist_length in Hsub. by rewrite !length_fmap in Hsub.
  - intros Hcheck. rewrite (check_filter _ _ _ _ Hcheck). apply sublist_filter.
Qed.

Lemma Range_check_throw_clamp r change (new_value : Field)
    (res : bool * SettingChange) :
  Range_check r change new_value THROW_ON_VIOLATION = Ok res →
  Range_check r change new_value CLAMP_ON_VIOLATION = Ok res.
Proof.
  unfold Range_check, reject, throw_or_assign, less_or_cannot_compare.
  destruct (negb (String.eqb (explain r) "")); [done|].
  destruct (is_const r); [done|].
  destruct (negb (isNull (min_value r))), (negb (isNull (max_value r))); simpl;
    repeat
      match goal with
      | |- context [FieldVisitorAccurateLess ?x ?y] =>
          destruct (FieldVisitorAccurateLess x y) as [[]|]; simpl
      end; done.
Qed.

Lemma checkImpl_throw_clamp sc current_settings change (res : bool * SettingChange) :
  allow_list_agrees (access_control sc) →
  checkImpl sc current_settings change THROW_ON_VIOLATION = Ok res →
  checkImpl sc current_settings change CLAMP_ON_VIOLATION = Ok res.
Proof.
  intros Hagree.
  destruct (decide (name change = "profile")) as [Hn|Hn].
  { by rewrite !checkImpl_profile. }
  destruct (checkSettingNameIsAllowed (access_control sc) (name change))
    as [e|] eqn:Hcheck.
  { by rewrite (checkImpl_throw_disallowed _ _ _ _ Hn Hcheck). }
  rewrite checkImpl_throw, checkImpl_clamp by done.
  rewrite (proj2 (Hagree _) Hcheck). simpl. unfold value_unchanged.
  destruct (tryGet current_settings (name change)) as [cur|].
  - destruct (bool_decide (value change = cur)); simpl.
    + intros [= <-]. by destruct (castValueUtil (name change) (value change)).
    + destruct (castValueUtil (name change) (value change)) as [v|e]; simpl; [|done].
      destruct (bool_decide (v = cur)); [done|]. apply Range_check_throw_clamp.
  - destruct (castValueUtil (name change) (value change)) as [v|e]; simpl; [|done].
    apply Range_check_throw_clamp.
Qed.

(** X14: what [check] accepts, [clamp] leaves alone.  With an
    allow-list whose two queries agree, when the batch [check] returns a
    list, [clamp] on the same input returns that same list: the two
    reactions differ only where [check] raises. *)
Theorem check_then_clamp sc current_settings changes (out : list SettingChange) :
  allow_list_agrees (access_control sc) →
  check sc current_settings changes = Ok out →
  clamp sc current_settings changes = Ok out.
Proof.
  intros Hagree. revert out. induction changes as [|c changes IH]; intros out.
  { by intros [= <-]. }
  rewrite check_cons, clamp_cons.
  destruct (checkImpl sc current_settings c THROW_ON_VIOLATION)
    as [res|e] eqn:Hc; simpl; [|done].
  rewrite (checkImpl_throw_clamp _ _ _ _ Hagree Hc). simpl.
  destruct (check sc current_settings changes) as [rest|e]; simpl; [|done].
  by rewrite (IH rest eq_refl).
Qed.

Lemma Range_check_within r change (new_value : Field) reaction :
  gates_pass r →
  above_max r new_value = false → below_min r new_value = false →
  Range_check r change new_value reaction = Ok (true, change).
Proof.
  intros Hg Ha Hb. destruct reaction.
  - rewrite Range_check_throw by done.
    unfold above_max, below_min in *.
    destruct (has_min r); simpl in *.
    + apply less_or_failed_false in Hb. rewrite Hb. simpl.
      destruct (has_max r); simpl in *; [|done].
      apply less_or_failed_false in Ha. by rewrite Ha.
    + destruct (has_max r); simpl in *; [|done].
      apply less_or_failed_false in Ha. by rewrite Ha.
  - rewrite Range_check_clamp. apply gates_pass_bools in Hg.
    by rewrite Hg, Ha, Hb.
Qed.

(** What is known of a change [clamp] kept: it is the profile, or its
    name is allowed, its value casts, the gates of its range pass and the
    cast value is inside the bounds. *)
Lemma clamp_kept_settled sc current_settings change change' :
  canonical_bounds sc →
  checkImpl sc current_settings change CLAMP_ON_VIOLATION = Ok (true, change') →
  name change' = "profile"
  ∨ (name change' ≠ "profile"
     ∧ isSettingNameAllowed (access_control sc) (name change') = true
     ∧ ∃ new_value : Field,
         castValueUtil (name change') (value change') = Ok new_value
         ∧ value_unchanged current_settings change'
           = restates_current current_settings change'
         ∧ gates_pass (getRange sc current_settings (name change'))
         ∧ above_max (getRange sc current_settings (name change')) new_value = false
         ∧ below_min (getRange sc current_settings (name change')) new_value = false).
Proof.
  intros Hcanon.
  destruct (decide (name change = "profile")) as [Hn|Hn].
  { rewrite checkImpl_profile by done. intros [= <-]. by left. }
  rewrite checkImpl_clamp by done.
  destruct (isSettingNameAllowed _ _) eqn:Hal; [simpl|done].
  destruct (castValueUtil (name change) (value change)) as [v|e] eqn:Hcast; [|done].
  destruct (value_unchanged current_settings change) eqn:Hu; [done|].
  rewrite Range_check_clamp.
  set (r := getRange sc current_settings (name change)).
  destruct (is_forbidden r || is_const r || inconsistent_bounds r) eqn:Hg; [done|].
  pose proof Hg as Hinc. apply orb_false_iff in Hinc as [_ Hinc].
  apply gates_pass_bools in Hg.
  assert (∀ bound : Field,
            canonical_bound (name change) bound →
            above_max r bound = false → below_min r bound = false →
            name (set_value change bound) ≠ "profile"
            ∧ isSettingNameAllowed (access_control sc)
                (name (set_value change bound)) = true
            ∧ ∃ new_value : Field,
                castValueUtil (name (set_value change bound))
                              (value (set_value change bound)) = Ok new_value
                ∧ value_unchanged current_settings (set_value change bound)
                  = restates_current current_settings (set_value change bound)
                ∧ gates_pass (getRange sc current_settings
                                (name (set_value change bound)))
                ∧ above_max (getRange sc current_settings
                               (name (set_value change bound))) new_value = false
                ∧ below_min (getRange sc current_settings
                               (name (set_value change bound))) new_value = false)
    as Hbound.
  { intros bound [Hcb _] Ha Hb. simpl. split; [done|]. split; [done|].
    exists bound. split; [done|].
    split; [by apply restates_current_set_value|]. done. }
  destruct (above_max r v) eqn:Ha.
  - intros [= <-]. right.
    assert (has_max r = true) as Hmax
      by (unfold above_max in Ha; by apply andb_true_iff in Ha as [? _]).
    pose proof (getRange_with_bound sc current_settings (name change)
                  (or_intror Hmax)) as Hentry.
    destruct (Hcanon _ _ Hentry) as [_ Hcmax]. fold r in Hcmax.
    specialize (Hcmax Hmax). apply Hbound; [done|..].
    + unfold above_max. rewrite Hmax. simpl.
      apply less_or_failed_false, Hcmax.
    + unfold below_min. unfold inconsistent_bounds in Hinc.
      rewrite Hmax, andb_true_r in Hinc. done.
  - destruct (below_min r v) eqn:Hb.
    + intros [= <-]. right.
      assert (has_min r = true) as Hmin
        by (unfold below_min in Hb; by apply andb_true_iff in Hb as [? _]).
      pose proof (getRange_with_bound sc current_settings (name change)
                    (or_introl Hmin)) as Hentry.
      destruct (Hcanon _ _ Hentry) as [Hcmin _]. fold r in Hcmin.
      specialize (Hcmin Hmin). apply Hbound; [done|..].
      * unfold above_max. unfold inconsistent_bounds in Hinc.
        rewrite Hmin in Hinc. done.
      * unfold below_min. rewrite Hmin. simpl.
        apply less_or_failed_false, Hcmin.
    + intros [= <-]. right. split; [done|]. split; [done|].
      exists v. split; [done|]. split; [|done].
      rewrite Hu. symmetry. unfold restates_current, value_unchanged in *.
      rewrite bool_decide_eq_false_2 by done. simpl.
      destruct (tryGet current_settings (name change)) as [cur|]; [|done].
      apply orb_false_iff in Hu as [Hu _]. apply bool_decide_eq_false in Hu.
      apply bool_decide_eq_false_2. congruence.
Qed.

Lemma checkImpl_throw_settled sc current_settings change (new_value : Field) :
  name change ≠ "profile" →
  checkSettingNameIsAllowed (access_control sc) (name change) = None →
  castValueUtil (name change) (value change) = Ok new_value →
  gates_pass (getRange sc current_settings (name change)) →
  above_max (getRange sc current_settings (name change)) new_value = false →
  below_min (getRange sc current_settings (name change)) new_value = false →
  checkImpl sc current_settings change THROW_ON_VIOLATION
  = Ok (negb (value_unchanged current_settings change), change).
Proof.
  intros Hn Hcheck Hcast Hg Ha Hb.
  rewrite checkImpl_throw by done. unfold value_unchanged. rewrite Hcast. simpl.
  destruct (tryGet current_settings (name change)) as [cur|].
  - destruct (bool_decide (value change = cur)); [done|]. simpl.
    destruct (bool_decide (new_value = cur)); [done|]. simpl.
    by apply Range_check_within.
  - by apply Range_check_within.
Qed.

(** X15: what [clamp] returns, [check] does not refuse.  With
    canonical bounds stored and an allow-list whose two queries agree, the
    batch [check] on a list returned by [clamp] never raises: it returns
    that list without the changes that restate the current value of their
    setting. *)
Theorem clamp_then_check sc current_settings changes (out : list SettingChange) :
  canonical_bounds sc →
  allow_list_agrees (access_control sc) →
  clamp sc current_settings changes = Ok out →
  check sc current_settings out
  = Ok (filter (λ c, restates_current current_settings c = false) out).
Proof.
  intros Hcanon Hagree. revert out.
  induction changes as [|c changes IH]; intros out.
  { by intros [= <-]. }
  rewrite clamp_cons.
  destruct (checkImpl sc current_settings c CLAMP_ON_VIOLATION)
    as [[b c']|e] eqn:Hc; simpl; [|done].
  destruct (clamp sc current_settings changes) as [rest|e]; simpl; [|done].
  intros [= <-]. specialize (IH rest eq_refl).
  destruct b; simpl; [|done].
  assert (checkImpl sc current_settings c' THROW_ON_VIOLATION
          = Ok (negb (restates_current current_settings c'), c')) as Hthrow.
  { destruct (clamp_kept_settled _ _ _ _ Hcanon Hc)
      as [Hp|(Hn & Hal & v & Hcast & Hu & Hg & Ha & Hb)].
    - rewrite checkImpl_profile by done. unfold restates_current.
      by rewrite bool_decide_eq_true_2.
    - rewrite <- Hu. apply (checkImpl_throw_settled _ _ _ v); try done.
      by apply Hagree. }
  rewrite check_cons, Hthrow, IH. simpl.
  destruct (restates_current current_settings c') eqn:Hr; simpl.
  - by rewrite filter_cons_False by (by rewrite Hr).
  - by rewrite filter_cons_True by done.
Qed.

(** ** Equality of ranges *)


End Further.

(** * The further properties on the sample inputs *)

Lemma sample_allow_list_agrees (replace_previous : bool) :
  allow_list_agrees (Sample.access replace_previous).
Proof.
  intros n. simpl.
  destruct (bool_decide (is_Some (Sample.setting_kind n))); split; done.
Qed.

Lemma sample_ltb_irrefl (s : string) : String.ltb s s = false.
Proof.
  unfold String.ltb. pose proof (String.compare_antisym s s) as H.
  destruct (String.compare s s); simpl in H; done.
Qed.

Lemma sample_cast_canonical : cast_canonical.
Proof.
  intros n x c. simpl. unfold Sample.cast.
  destruct (Sample.setting_kind n) as [[]|] eqn:Hk; destruct x; try done;
    intros [= <-]; split; simpl; unfold Sample.cast; rewrite ?Hk; try done.
  - by rewrite N.ltb_irrefl.
  - by rewrite sample_ltb_irrefl.
Qed.

Lemma limits_no_explanations : no_explanations Sample.limits.
Proof.
  unfold no_explanations, Sample.limits. simpl.
  repeat (apply (map_Forall_insert_2 (λ _ r, explain r = "")); [reflexivity|]).
  apply map_Forall_empty.
Qed.



Lemma no_explanations_kept_witness :
  no_explanations Sample.limits
  ∧ no_explanations Sample.overrides
  ∧ no_explanations (setIsConst Sample.limits "max_threads" true)
  ∧ no_explanations (merge Sample.limits Sample.overrides).
Proof.
  assert (no_explanations Sample.overrides) as Hother.
  { unfold no_explanations, Sample.overrides. simpl.
    repeat (apply (map_Forall_insert_2 (λ _ r, explain r = "")); [reflexivity|]).
    apply map_Forall_empty. }
  destruct (no_explanations_kept Sample.limits "max_threads")
    as (_ & Hkept).
  destruct (Hkept limits_no_explanations) as (Hconst & _ & _ & _ & Hmerge).
  split; [exact limits_no_explanations|]. split; [exact Hother|]. split.
  - apply Hconst.
  - apply Hmerge, Hother.
Defined.

Lemma forbidden_iff_mode_witness :
  no_explanations Sample.limits
  ∧ (is_forbidden (getRange Sample.limits (Sample.snapshot 0 true) "max_threads")
     = true
     ↔ mode_forbids Sample.limits (Sample.snapshot 0 true) "max_threads").
Proof.
  split; [exact limits_no_explanations|].
  apply (forbidden_iff_mode Sample.limits (Sample.snapshot 0 true) "max_threads"
           limits_no_explanations).
Defined.

Lemma canonical_bounds_kept_witness :
  canonical_bounds Sample.limits
  ∧ cast_canonical
  ∧ setMinValue Sample.limits "max_threads" (Sample.UInt64 2)
    = Ok (upsert (λ r, with_min_value r (Sample.UInt64 2)) Sample.limits "max_threads")
  ∧ canonical_bounds
      (upsert (λ r, with_min_value r (Sample.UInt64 2)) Sample.limits "max_threads").
Proof.
  destruct (canonical_bounds_kept Sample.limits "max_threads") as (_ & Hkept).
  destruct (Hkept limits_canonical) as (_ & _ & Hmin & _).
  split; [exact limits_canonical|]. split; [exact sample_cast_canonical|].
  split; [reflexivity|].
  apply (Hmin sample_cast_canonical (Sample.UInt64 2)). reflexivity.
Defined.

Lemma merge_replace_overwrites_witness :
  doesSettingsConstraintsReplacePrevious (access_control Sample.replacing) = true
  ∧ constraints Sample.overrides !! "max_memory_usage" = Some Sample.at_least_two
  ∧ constraints (merge Sample.replacing Sample.overrides) !! "max_memory_usage"
    = Some Sample.at_least_two
  ∧ constraints (merge Sample.replacing Sample.overrides) !! "profile"
    = Some Sample.constant.
Proof.
  split; [reflexivity|]. split; [reflexivity|]. split.
  - destruct (merge_replace_overwrites Sample.replacing Sample.overrides
                "max_memory_usage" eq_refl) as (Hsome & _).
    apply Hsome. reflexivity.
  - destruct (merge_replace_overwrites Sample.replacing Sample.overrides
                "profile" eq_refl) as (_ & Hnone).
    apply Hnone. reflexivity.
Defined.

Lemma merge_assoc_witness :
  doesSettingsConstraintsReplacePrevious (access_control Sample.limits)
  = doesSettingsConstraintsReplacePrevious (access_control Sample.overrides)
  ∧ merge (merge Sample.limits Sample.overrides) Sample.limits
    = merge Sample.limits (merge Sample.overrides Sample.limits).
Proof.
  split; [reflexivity|].
  apply (merge_assoc Sample.limits Sample.overrides Sample.limits). reflexivity.
Defined.

Lemma mode_forbids_write_witness :
  name (Sample.threads 7) ≠ "profile"
  ∧ checkSettingNameIsAllowed (access_control Sample.limits) (name (Sample.threads 7))
    = None
  ∧ isSettingNameAllowed (access_control Sample.limits) (name (Sample.threads 7))
    = true
  ∧ value_unchanged (Sample.snapshot 1 true) (Sample.threads 7) = false
  ∧ castValueUtil (name (Sample.threads 7)) (value (Sample.threads 7))
    = Ok (Sample.UInt64 7)
  ∧ checkImpl Sample.limits (Sample.snapshot 1 true) (Sample.threads 7)
              THROW_ON_VIOLATION
    = Raise (mkException "Cannot modify 'max_threads' setting in readonly mode"
                         READONLY)
  ∧ checkImpl Sample.limits (Sample.snapshot 1 true) (Sample.threads 7)
              CLAMP_ON_VIOLATION
    = Ok (false, Sample.threads 7).
Proof.
  destruct (mode_forbids_write Sample.limits (Sample.snapshot 1 true)
              (Sample.threads 7) (Sample.UInt64 7)
              ltac:(discriminate) eq_refl eq_refl eq_refl eq_refl)
    as (_ & _ & Hone).
  destruct Hone as (Hthrow & Hclamp).
  - reflexivity.
  - intros [_ H]. discriminate H.
  - right. exists Sample.five_to_ten. split; reflexivity.
  - split; [discriminate|]. split; [reflexivity|]. split; [reflexivity|].
    split; [reflexivity|]. split; [reflexivity|].
    split; [exact Hthrow|exact Hclamp].
Defined.

Lemma unconstrained_accepted_witness :
  name Sample.comment ≠ "profile"
  ∧ name_allowed Sample.limits (Sample.snapshot 2 true) (name Sample.comment)
                 THROW_ON_VIOLATION = Ok true
  ∧ value_unchanged (Sample.snapshot 2 true) Sample.comment = false
  ∧ castValueUtil (name Sample.comment) (value Sample.comment)
    = Ok (Sample.Str "nightly")
  ∧ ¬ mode_forbids Sample.limits (Sample.snapshot 2 true) (name Sample.comment)
  ∧ constraints Sample.limits !! name Sample.comment = None
  ∧ checkImpl Sample.limits (Sample.snapshot 2 true) Sample.comment
              THROW_ON_VIOLATION
    = Ok (true, Sample.comment).
Proof.
  assert (¬ mode_forbids Sample.limits (Sample.snapshot 2 true) (name Sample.comment))
    as Hfree.
  { intros [[H _]|[[_ H]|[H _]]]; discriminate H. }
  split; [discriminate|]. split; [reflexivity|]. split; [reflexivity|].
  split; [reflexivity|]. split; [exact Hfree|]. split; [reflexivity|].
  apply (unconstrained_accepted Sample.limits (Sample.snapshot 2 true) Sample.comment
           (Sample.Str "nightly") THROW_ON_VIOLATION);
    [discriminate|reflexivity|reflexivity|reflexivity|exact Hfree|reflexivity].
Defined.

Lemma constant_rejected_witness :
  no_explanations Sample.limits
  ∧ ¬ mode_forbids (setIsConst Sample.limits "max_threads" true)
                   (Sample.snapshot 0 true) "max_threads"
  ∧ checkImpl (setIsConst Sample.limits "max_threads" true) (Sample.snapshot 0 true)
              (Sample.threads 7) THROW_ON_VIOLATION
    = Raise (should_not_be_changed "max_threads")
  ∧ checkImpl (setIsConst Sample.limits "max_threads" true) (Sample.snapshot 0 true)
              (Sample.threads 7) CLAMP_ON_VIOLATION
    = Ok (false, Sample.threads 7).
Proof.
  assert (¬ mode_forbids (setIsConst Sample.limits "max_threads" true)
                         (Sample.snapshot 0 true) "max_threads") as Hfree.
  { intros [[H _]|[[H _]|[H _]]]; discriminate H. }
  split; [exact limits_no_explanations|]. split; [exact Hfree|].
  apply (constant_rejected Sample.limits (Sample.snapshot 0 true) (Sample.threads 7)
           (Sample.UInt64 7) limits_no_explanations ltac:(discriminate)
           eq_refl eq_refl eq_refl eq_refl Hfree).
Defined.

Lemma batch_keeps_names_witness :
  clamp Sample.limits (Sample.snapshot 0 true)
        [Sample.threads 2; Sample.misspelt; Sample.comment]
  = Ok [Sample.threads 5; Sample.comment]
  ∧ ["max_threads"; "log_comment"]
    `sublist_of` ["max_threads"; "max_thread"; "log_comment"]
  ∧ check Sample.limits (Sample.snapshot 0 true) [Sample.threads 5; Sample.threads 7]
    = Ok [Sample.threads 7]
  ∧ [Sample.threads 7] `sublist_of` [Sample.threads 5; Sample.threads 7].
Proof.
  split; [reflexivity|]. split; [|split; [reflexivity|]].
  - destruct (batch_keeps_names Sample.limits (Sample.snapshot 0 true)
                [Sample.threads 2; Sample.misspelt; Sample.comment]
                [Sample.threads 5; Sample.comment]) as (Hclamp & _).
    apply (Hclamp eq_refl).
  - destruct (batch_keeps_names Sample.limits (Sample.snapshot 0 true)
                [Sample.threads 5; Sample.threads 7] [Sample.threads 7])
      as (_ & Hcheck).
    apply (Hcheck eq_refl).
Defined.

Lemma check_then_clamp_witness :
  allow_list_agrees (access_control Sample.limits)
  ∧ check Sample.limits (Sample.snapshot 0 true)
          [Sample.threads 5; Sample.threads 7; Sample.switch_profile]
    = Ok [Sample.threads 7; Sample.switch_profile]
  ∧ clamp Sample.limits (Sample.snapshot 0 true)
          [Sample.threads 5; Sample.threads 7; Sample.switch_profile]
    = Ok [Sample.threads 7; Sample.switch_profile].
Proof.
  split; [exact (sample_allow_list_agrees false)|]. split; [reflexivity|].
  apply (check_then_clamp Sample.limits (Sample.snapshot 0 true)
           [Sample.threads 5; Sample.threads 7; Sample.switch_profile]
           [Sample.threads 7; Sample.switch_profile]
           (sample_allow_list_agrees false) eq_refl).
Defined.

Lemma clamp_then_check_witness :
  canonical_bounds Sample.limits
  ∧ allow_list_agrees (access_control Sample.limits)
  ∧ clamp Sample.limits (Sample.snapshot 0 true)
          [Sample.threads 2; Sample.threads 20; Sample.misspelt]
    = Ok [Sample.threads 5; Sample.threads 10]
  ∧ check Sample.limits (Sample.snapshot 0 true)
          [Sample.threads 5; Sample.threads 10]
    = Ok [Sample.threads 10].
Proof.
  split; [exact limits_canonical|].
  split; [exact (sample_allow_list_agrees false)|]. split; [reflexivity|].
  apply (clamp_then_check Sample.limits (Sample.snapshot 0 true)
           [Sample.threads 2; Sample.threads 20; Sample.misspelt]
           [Sample.threads 5; Sample.threads 10]
           limits_canonical (sample_allow_list_agrees false) eq_refl).
Defined.

